(** * Article summary generator: extraction and page layout

    A shallow embedding of the text-extraction pipeline
    ([src/actions/ai/fetch-article-actions.ts]), of the word wrap
    ([src/lib/utils.ts]) and of the page rendering
    ([src/actions/png/generate-png-actions.ts]), followed by the
    properties the specification states about them.  The call of the
    summarisation service ([generateSummary]), the server actions on
    summaries, the handler of the home page and the URL form are
    embedded after them, with the properties their code shows.

    Conventions of the embedding.
    - A JavaScript string is a [string]; every [ascii] stands for one
      UTF-16 code unit below 256, so [String.length] is [.length].
    - A JavaScript number that is a coordinate or a measured width is a
      rational ([Q]): every finite double is a rational and [<=] on
      doubles is [<=] on the rationals they denote.  Sums of coordinates
      are exact here, where the program rounds them to doubles.
    - Effects (network requests, console output, drawing calls) are
      returned as explicit traces next to the result. *)

From Stdlib Require Import List String Ascii Bool Arith ZArith QArith Lia Lqa.
From Stdlib Require Import DecimalString DecimalN DecimalPos.
Import ListNotations.

Set Warnings "-register-all,-notation-for-abbreviation".

Local Open Scope list_scope.
Local Open Scope string_scope.

(* ================================================================= *)
(** * Part I: definitions *)
(* ================================================================= *)

(** ** Built-in string operations of the JavaScript runtime *)

Module JsString.

(** [s.split(sep)] for a one-character separator.  The result of [split]
    is never the empty array, so it is returned as its first element and
    the list of the remaining ones. *)
Fixpoint split (sep : ascii) (s : string) : string * list string :=
  match s with
  | EmptyString => (EmptyString, [])
  | String c s' =>
      let (w, ws) := split sep s' in
      if Ascii.eqb c sep then (EmptyString, w :: ws) else (String c w, ws)
  end.

(** The array [s.split(sep)] as a list. *)
Definition split_list (sep : ascii) (s : string) : list string :=
  fst (split sep s) :: snd (split sep s).

(** [a.join(sep)]. *)
Fixpoint join (sep : string) (a : list string) : string :=
  match a with
  | [] => EmptyString
  | [w] => w
  | w :: a' => w ++ sep ++ join sep a'
  end.

(** White space as [String.prototype.trim] sees it, among the code units
    below 256: TAB, LF, VT, FF, CR, SPACE and NBSP. *)
Definition is_white_space (c : ascii) : bool :=
  let n := nat_of_ascii c in
  ((9 <=? n)%nat && (n <=? 13)%nat) || (n =? 32)%nat || (n =? 160)%nat.

Fixpoint trimStart (s : string) : string :=
  match s with
  | EmptyString => EmptyString
  | String c s' => if is_white_space c then trimStart s' else s
  end.

Fixpoint trimEnd (s : string) : string :=
  match s with
  | EmptyString => EmptyString
  | String c s' =>
      match trimEnd s' with
      | EmptyString => if is_white_space c then EmptyString
                       else String c EmptyString
      | t => String c t
      end
  end.

(** [s.trim()]. *)
Definition trim (s : string) : string := trimEnd (trimStart s).

(** [s.startsWith(p)]. *)
Definition startsWith (p s : string) : bool := String.prefix p s.

(** [s.substring(n)], for [0 <= n]. *)
Fixpoint substring (n : nat) (s : string) : string :=
  match n, s with
  | O, _ => s
  | S n', String _ s' => substring n' s'
  | S _, EmptyString => EmptyString
  end.

(** [s.replace(/\n{2,}/g, "\n")]: every maximal run of two or more line
    feeds becomes one line feed. *)
Fixpoint collapse_newlines (s : string) : string :=
  match s with
  | EmptyString => EmptyString
  | String c s' =>
      if Ascii.eqb c "010"%char then
        match s' with
        | String c' _ =>
            if Ascii.eqb c' "010"%char then collapse_newlines s'
            else String c (collapse_newlines s')
        | EmptyString => String c EmptyString
        end
      else String c (collapse_newlines s')
  end.

(** A word is free of [sep] when splitting it yields the word alone. *)
Definition sep_free (sep : ascii) (w : string) : Prop :=
  split sep w = (w, []).

(** [`${acc}${sep}${w}`], the step by which the loop of [wrapText] extends
    a line. *)
Definition glue (sep : ascii) (acc w : string) : string :=
  acc ++ String sep w.

(** The string ["\n"]. *)
Definition line_feed : string := String "010"%char EmptyString.

(** Template substitution [`${n}`] of a non-negative integer. *)
Definition of_number (n : N) : string :=
  NilZero.string_of_uint (N.to_uint n).

End JsString.

(** ** [src/lib/utils.ts]: word wrap *)

Module Utils.
Import JsString.

(** One element of the array [wrapText] returns: [{ text, x }]. *)
Record Line : Type := mkLine { text : string; x : Q }.

(** The [for] loop of [wrapText], from index [i] on: [words] holds
    [words[i..]], [currentLine] the line under construction.  [measure s]
    is [ctx.measureText(s).width].  The final [lines.push] is the [nil]
    case. *)
Fixpoint wrap_loop (measure : string -> Q) (maxWidth x : Q)
    (currentLine : string) (words : list string) : list Line :=
  match words with
  | [] => [mkLine currentLine x]
  | w :: rest =>
      let testLine := currentLine ++ " " ++ w in
      let testWidth := measure testLine in
      if Qle_bool testWidth maxWidth
      then wrap_loop measure maxWidth x testLine rest
      else mkLine currentLine x :: wrap_loop measure maxWidth x w rest
  end.

(** [wrapText(ctx, text, maxWidth, x)]; of [ctx] only [measureText] is
    used, and it is passed as [measure]. *)
Definition wrapText (measure : string -> Q) (text : string)
    (maxWidth x : Q) : list Line :=
  let (word0, words) := split " "%char text in
  wrap_loop measure maxWidth x word0 words.

(** The words of a string, as [wrapText] takes them. *)
Definition words_of (s : string) : list string := split_list " "%char s.

(** The measure of a fake context that counts characters: every character
    is one pixel wide. *)
Definition count_chars (s : string) : Q :=
  inject_Z (Z.of_nat (String.length s)).

End Utils.

(** ** Outcomes of the server actions *)

Module Types.

(** Modelled from the spec: the type [ActionState<T>] is declared in
    [types/server-action-types.ts], which is not among the sources.  The
    actions "report structured outcomes", and build them as the object
    literals [{ isSuccess: true, message, data }] and
    [{ isSuccess: false, message }]. *)
Inductive ActionState (T : Type) : Type :=
| Success (message : string) (data : T)
| Failure (message : string).

Arguments Success {T} message data.
Arguments Failure {T} message.

Definition isSuccess {T : Type} (r : ActionState T) : bool :=
  match r with Success _ _ => true | Failure _ => false end.

Definition message {T : Type} (r : ActionState T) : string :=
  match r with Success m _ => m | Failure m => m end.

(** Lines written with [console.warn] and [console.error]. *)
Inductive Log : Type :=
| Warn (text : string)
| Error (text : string).

End Types.

(** ** [src/actions/png/generate-png-actions.ts]: page rendering *)

Module GeneratePng.
Import JsString Utils Types.
Local Open Scope Q_scope.

(** A row of [summariesTable] ([SelectSummary]), without its timestamps. *)
Record SelectSummary : Type := mkSummary {
  id : string;
  userId : string;
  url : string;
  originalText : string;
  summaryText : string
}.

(** What [db.query.summariesTable.findFirst] does: it yields a row or
    [undefined], or it throws. *)
Inductive QueryResult : Type :=
| Row (summary : SelectSummary)
| NoRow
| QueryThrows.

(** A drawing call as the surface receives it, with the context's
    [fillStyle], and for text its [font] and [textAlign], at that time. *)
Inductive DrawCall : Type :=
| FillRect (style : string) (x y w h : Q)
| FillText (style font align text : string) (x y : Q).

(** The 2D context of a canvas: the dimensions of its surface, its
    drawing state, and the calls received so far (latest first). *)
Record Context2D : Type := mkCtx {
  canvas_width : Q;
  canvas_height : Q;
  fillStyle : string;
  font : string;
  textAlign : string;
  drawn : list DrawCall
}.

(** [createCanvas(w, h).getContext("2d")], with the canvas defaults. *)
Definition createCanvas (w h : Q) : Context2D :=
  mkCtx w h "#000000" "10px sans-serif" "start" [].

Definition set_fillStyle (v : string) (ctx : Context2D) : Context2D :=
  mkCtx (canvas_width ctx) (canvas_height ctx) v (font ctx) (textAlign ctx)
        (drawn ctx).

Definition set_font (v : string) (ctx : Context2D) : Context2D :=
  mkCtx (canvas_width ctx) (canvas_height ctx) (fillStyle ctx) v
        (textAlign ctx) (drawn ctx).

Definition set_textAlign (v : string) (ctx : Context2D) : Context2D :=
  mkCtx (canvas_width ctx) (canvas_height ctx) (fillStyle ctx) (font ctx) v
        (drawn ctx).

Definition fillRect (x y w h : Q) (ctx : Context2D) : Context2D :=
  mkCtx (canvas_width ctx) (canvas_height ctx) (fillStyle ctx) (font ctx)
        (textAlign ctx) (FillRect (fillStyle ctx) x y w h :: drawn ctx).

Definition fillText (s : string) (x y : Q) (ctx : Context2D) : Context2D :=
  mkCtx (canvas_width ctx) (canvas_height ctx) (fillStyle ctx) (font ctx)
        (textAlign ctx)
        (FillText (fillStyle ctx) (font ctx) (textAlign ctx) s x y
           :: drawn ctx).

(** The image [canvas.toDataURL("image/png")] encodes: the surface with
    its dimensions and what was drawn on it, in drawing order.  The
    surface keeps the pixels inside its dimensions only. *)
Record Png : Type := mkPng {
  png_width : Q;
  png_height : Q;
  png_calls : list DrawCall
}.

Definition toDataURL (ctx : Context2D) : Png :=
  mkPng (canvas_width ctx) (canvas_height ctx) (rev (drawn ctx)).

(** What the action reads from its environment: the session of [auth()],
    the database, whether the first and the second [createCanvas]
    succeed, and the text metrics of the graphics backend ([metrics f s]
    is the width of [s] set in font [f]). *)
Record Env : Type := mkEnv {
  auth : option string;
  findFirst : string -> QueryResult;
  canvas_first : bool;
  canvas_second : bool;
  metrics : string -> string -> Q
}.

(** [ctx.measureText(s).width]. *)
Definition measureText (env : Env) (ctx : Context2D) (s : string) : Q :=
  metrics env (font ctx) s.

(** [!s] for a string. *)
Definition falsy (s : string) : bool :=
  match s with EmptyString => true | _ => false end.

(** Page constants. *)
Definition width : Q := 2480.
Definition height : Q := 3508.
Definition headlineFontSize : N := 72.
Definition subheadlineFontSize : N := 54.
Definition bulletFontSize : N := 42.
Definition margin : Q := 60.
Definition headlineY : Q := height * 0.05.
Definition subheadlineY : Q := height * 0.125.
Definition bulletStartY : Q := height * 0.175.
Definition maxTextWidth : Q := width - 2 * margin.
Definition lineHeight : Q := inject_Z (Z.of_N bulletFontSize) * 1.2.

(** The marker drawn in front of every bullet, byte for byte as the
    source file spells it; no property looks into it. *)
Definition bulletSymbol : string := "â€¢".

(** [`${size}px Inter`]. *)
Definition px_Inter (size : N) : string := of_number size ++ "px Inter".

(** Lines 135-138: the bullets of a summary text. *)
Definition bulletPoints (summaryText : string) : list string :=
  map (fun line => substring 2 (trim line))
      (filter (fun line => startsWith "- " (trim line))
              (split_list "010"%char summaryText)).

(** Lines 152-155: the inner loop, over the lines of one bullet.  The
    cursor is the exact sum of its increments; the program keeps the
    double nearest to each partial sum, which differs from it by
    rounding only. *)
Fixpoint draw_lines (ctx : Context2D) (currentY : Q) (wrappedLines : list Line)
    : Context2D * Q :=
  match wrappedLines with
  | [] => (ctx, currentY)
  | line :: rest =>
      draw_lines (fillText (text line) (x line) currentY ctx)
                 (currentY + lineHeight) rest
  end.

(** Lines 146-159: the loop over the bullets, with the cursor as the
    exact sum again. *)
Fixpoint draw_bullets (env : Env) (ctx : Context2D) (currentY : Q)
    (points : list string) : Context2D * Q :=
  match points with
  | [] => (ctx, currentY)
  | point :: rest =>
      let ctx1 := fillText bulletSymbol margin currentY ctx in
      let wrappedLines :=
        wrapText (measureText env ctx1) point (maxTextWidth - margin)
                 (margin + 30) in
      let (ctx2, y2) := draw_lines ctx1 currentY wrappedLines in
      draw_bullets env ctx2 (y2 + lineHeight * 0.5) rest
  end.

(** Lines 108-132 and 141-142: background, headline and subheadline, and
    the drawing state in which the bullets are drawn. *)
Definition draw_header (ctx0 : Context2D) (headline subheadline : string)
    : Context2D :=
  let ctx := set_fillStyle "#FFFFFF" ctx0 in
  let ctx := fillRect 0 0 width height ctx in
  let ctx := set_fillStyle "#000000" ctx in
  let ctx := set_font (px_Inter headlineFontSize) ctx in
  let ctx := set_textAlign "center" ctx in
  let ctx := fillText headline (width / 2) headlineY ctx in
  let ctx := set_font (px_Inter subheadlineFontSize) ctx in
  let ctx := fillText subheadline (width / 2) subheadlineY ctx in
  let ctx := set_font (px_Inter bulletFontSize) ctx in
  set_textAlign "left" ctx.

(** Lines 108-174: everything after the surface exists.  The test of
    line 162 only writes a warning. *)
Definition render (env : Env) (ctx0 : Context2D) (summary : SelectSummary)
    (headline subheadline : string) : ActionState Png * list Log :=
  let ctx := draw_header ctx0 headline subheadline in
  let points := bulletPoints (summaryText summary) in
  let (ctx, currentY) := draw_bullets env ctx bulletStartY points in
  let log :=
    if Qle_bool currentY (height - margin) then []
    else [Warn "Text overflow detected; truncating content."] in
  (Success "PNG generated successfully." (toDataURL ctx), log).

(** [generatePngAction(summaryId, headline, subheadline)].  The session
    gives a user identifier or [null]; [!userId] holds for [null] and for
    the empty string. *)
Definition generatePngAction (env : Env)
    (summaryId headline subheadline : string)
    : ActionState Png * list Log :=
  let unauthenticated : ActionState Png * list Log :=
    (Failure "User must be authenticated to generate a PNG.", []) in
  match auth env with
  | None => unauthenticated
  | Some userId' =>
      if falsy userId' then unauthenticated
      else if falsy summaryId || falsy headline || falsy subheadline then
        (Failure
           "Missing required parameters: summaryId, headline, or subheadline.",
         [])
      else
        match findFirst env summaryId with
        | QueryThrows =>
            (Failure "An unexpected error occurred while generating the PNG.",
             [Error "Error in generatePngAction:"])
        | NoRow => (Failure "Summary not found.", [])
        | Row summary =>
            if negb (String.eqb (userId summary) userId') then
              (Failure
                 "Unauthorized: You can only generate PNGs for your own summaries.",
               [])
            else if canvas_first env then
              render env (createCanvas width height) summary headline
                     subheadline
            else
              let log1 := [Warn "First PNG generation attempt failed:"] in
              if canvas_second env then
                let (r, log) :=
                  render env (createCanvas width height) summary headline
                         subheadline in
                (r, (log1 ++ log)%list)
              else
                (Failure
                   "Failed to initialize canvas for PNG generation after retry.",
                 (log1 ++ [Error "Second PNG generation attempt failed:"])%list)
        end
  end.

(** The pixels of an image that carry ink.  [ink c px py] tells whether
    the call [c] covers the pixel [(px, py)] of the unbounded plane, which
    is for the rasteriser of the backend to say; the surface keeps what
    falls inside its dimensions.  That the surface has no pixel outside
    its dimensions is how the canvas library works (the comment of line
    164 relies on it) and is part of this definition; what the program
    adds to it is stated over the calls it issues. *)
Definition inside (img : Png) (px py : Z) : bool :=
  Qle_bool 0 (inject_Z px) && negb (Qle_bool (png_width img) (inject_Z px)) &&
  Qle_bool 0 (inject_Z py) && negb (Qle_bool (png_height img) (inject_Z py)).


(** The bullets of a list of lines in the words of the specification: a
    line whose trimmed form is the marker "- " followed by [b] gives the
    bullet [b]; every other line gives nothing; the order is kept. *)
Inductive marked_lines : list string -> list string -> Prop :=
| marked_nil : marked_lines [] []
| marked_bullet (l : string) (ls : list string) (b : string)
    (bs : list string) :
    trim l = "- " ++ b -> marked_lines ls bs ->
    marked_lines (l :: ls) (b :: bs)
| marked_omit (l : string) (ls bs : list string) :
    (forall b, trim l <> "- " ++ b) -> marked_lines ls bs ->
    marked_lines (l :: ls) bs.

(** A string of white space only. *)
Fixpoint blank (s : string) : bool :=
  match s with
  | EmptyString => true
  | String c s' => is_white_space c && blank s'
  end.

(** A summary text of [n] one-letter bullets. *)
Fixpoint many_bullets (n : nat) : string :=
  match n with
  | O => EmptyString
  | S n' => "- x" ++ String "010"%char (many_bullets n')
  end.

(** A fake graphics backend: one pixel per character in every font. *)
Definition fake_env (user : string) (summary : SelectSummary) : Env :=
  mkEnv (Some user) (fun _ => Row summary) true true
        (fun _ s => count_chars s).

End GeneratePng.

(** ** The DOM and the selections of the HTML library (cheerio) *)

Module Cheerio.
Import JsString.

(** A node of the parsed document. *)
Inductive Node : Type :=
| Text (data : string)
| Comment (data : string)
| Element (name : string) (children : list Node).

(** The children of the document node [cheerio.load] returns. *)
Notation Document := (list Node) (only parsing).

(** A node is identified by its position: the child indices that lead to
    it from the document node.  A selection (a cheerio object) is a list
    of nodes with their positions. *)
Notation Path := (list nat) (only parsing).
Notation Located := (list nat * Node)%type (only parsing).

(** A node and its descendants in document order; [forest p i l] lists
    the trees [l], which are the children from index [i] on of the node
    at [p]. *)
Fixpoint subtree (p : Path) (n : Node) {struct n} : list Located :=
  (p, n) ::
  match n with
  | Element _ kids =>
      (fix forest (i : nat) (l : list Node) {struct l} : list Located :=
         match l with
         | [] => []
         | k :: l' => (subtree (p ++ [i]) k ++ forest (S i) l')%list
         end) O kids
  | _ => []
  end.

Fixpoint forest (p : Path) (i : nat) (l : list Node) : list Located :=
  match l with
  | [] => []
  | k :: l' => (subtree (p ++ [i]) k ++ forest p (S i) l')%list
  end.

(** All nodes of a document, in document order. *)
Definition located_in (doc : Document) : list Located := forest [] O doc.

Definition has_name (names : list string) (n : Node) : bool :=
  match n with
  | Element name _ => existsb (String.eqb name) names
  | _ => false
  end.

(** [$(sel)] for a selector that is a list of tag names, [$] being the
    function [cheerio.load] returned for [doc]: the elements of the
    document with one of these names, in document order. *)
Definition select (doc : Document) (names : list string) : list Located :=
  filter (fun e => has_name names (snd e)) (located_in doc).

(** [a] is a proper ancestor of [b]. *)
Fixpoint is_ancestor (a b : Path) : bool :=
  match a, b with
  | [], [] => false
  | [], _ :: _ => true
  | i :: a', j :: b' => Nat.eqb i j && is_ancestor a' b'
  | _ :: _, [] => false
  end.

Fixpoint path_eqb (a b : Path) : bool :=
  match a, b with
  | [], [] => true
  | i :: a', j :: b' => Nat.eqb i j && path_eqb a' b'
  | _, _ => false
  end.

(** The node at [q] has an ancestor in the selection; the node at [q] is
    in the selection. *)
Definition has_ancestor_in (sel : list Located) (q : Path) : bool :=
  existsb (fun s => is_ancestor (fst s) q) sel.

Definition holds (sel : list Located) (q : Path) : bool :=
  existsb (fun s => path_eqb (fst s) q) sel.

(** [sel.find(names)], for a selection [sel] of [doc]: the descendants of
    the selected elements that carry one of the names, each once and in
    document order. *)
Definition find (doc : Document) (names : list string) (sel : list Located)
    : list Located :=
  filter (fun e => has_name names (snd e) && has_ancestor_in sel (fst e))
         (located_in doc).

(** [$(e).text()]: the text of the descendants, concatenated. *)
Fixpoint textContent (n : Node) : string :=
  match n with
  | Text data => data
  | Comment _ => EmptyString
  | Element _ kids => String.concat EmptyString (map textContent kids)
  end.

(** [$(sel).remove()] for a list of tag names: the document without the
    elements of these names (and so without their descendants). *)
Fixpoint remove (names : list string) (n : Node) : list Node :=
  match n with
  | Element name kids =>
      if existsb (String.eqb name) names then []
      else [Element name (flat_map (remove names) kids)]
  | _ => [n]
  end.

Definition remove_all (names : list string) (doc : Document) : Document :=
  flat_map (remove names) doc.

(** Whether an element named [name] occurs in a tree. *)
Fixpoint occurs (name : string) (n : Node) : bool :=
  match n with
  | Element name' kids =>
      String.eqb name' name || existsb (occurs name) kids
  | _ => false
  end.

(** The elements with one of the [names] that lie strictly within an
    element named [root], in document order, by a traversal of the tree;
    [inside] tells whether the node visited has such an ancestor. *)
Fixpoint within (root : string) (names : list string) (inside : bool)
    (n : Node) : list Node :=
  match n with
  | Element name kids =>
      ((if inside && existsb (String.eqb name) names then [n] else [])
       ++ flat_map (within root names (inside || String.eqb name root)) kids)%list
  | _ => []
  end.

(** The elements with one of the [names] in a tree, in document order. *)
Fixpoint named (names : list string) (n : Node) : list Node :=
  match n with
  | Element name kids =>
      ((if existsb (String.eqb name) names then [n] else [])
       ++ flat_map (named names) kids)%list
  | _ => []
  end.

(** The node [e] lies in the subtree of a child of [p] with an index from
    [lo] up to [hi] (excluded). *)
Definition below (p : Path) (lo hi : nat) (e : Located) : Prop :=
  exists j r, (lo <= j < hi)%nat /\ fst e = (p ++ j :: r)%list.

End Cheerio.

(** ** Validation of a URL by [new URL(url)] *)

Module Url.
Import JsString.

Definition code (c : ascii) : nat := nat_of_ascii c.

Definition is_c0_or_space (c : ascii) : bool := (code c <=? 32)%nat.

Definition is_tab_or_newline (c : ascii) : bool :=
  (code c =? 9)%nat || (code c =? 10)%nat || (code c =? 13)%nat.

Definition is_upper (c : ascii) : bool :=
  (65 <=? code c)%nat && (code c <=? 90)%nat.

Definition is_alpha (c : ascii) : bool :=
  is_upper c || ((97 <=? code c)%nat && (code c <=? 122)%nat).

Definition is_digit (c : ascii) : bool :=
  (48 <=? code c)%nat && (code c <=? 57)%nat.

Definition lower (c : ascii) : ascii :=
  if is_upper c then ascii_of_nat (code c + 32) else c.

Fixpoint strip_start (s : string) : string :=
  match s with
  | EmptyString => EmptyString
  | String c s' => if is_c0_or_space c then strip_start s' else s
  end.

Fixpoint strip_end (s : string) : string :=
  match s with
  | EmptyString => EmptyString
  | String c s' =>
      match strip_end s' with
      | EmptyString => if is_c0_or_space c then EmptyString
                       else String c EmptyString
      | t => String c t
      end
  end.

Fixpoint drop_tab_newline (s : string) : string :=
  match s with
  | EmptyString => EmptyString
  | String c s' =>
      if is_tab_or_newline c then drop_tab_newline s'
      else String c (drop_tab_newline s')
  end.

(** Scheme state of the parser: the scheme, in lower case, up to the
    first ":", and what follows it.  Without a base URL, a string that
    has no scheme is a failure. *)
Fixpoint scheme_state (s : string) : option (string * string) :=
  match s with
  | EmptyString => None
  | String c s' =>
      if Ascii.eqb c ":" then Some (EmptyString, s')
      else if is_alpha c || is_digit c || Ascii.eqb c "+"
              || Ascii.eqb c "-" || Ascii.eqb c "."
      then match scheme_state s' with
           | Some (scheme, rest) => Some (String (lower c) scheme, rest)
           | None => None
           end
      else None
  end.

(** Scheme start state: a scheme begins with a letter. *)
Definition scheme_start_state (s : string) : option (string * string) :=
  match s with
  | String c _ => if is_alpha c then scheme_state s else None
  | EmptyString => None
  end.

Definition is_special (scheme : string) : bool :=
  existsb (String.eqb scheme) ["ftp"; "file"; "http"; "https"; "ws"; "wss"].

(** Whether [new URL(input)] returns (rather than throws).  The states of
    the parser that read an authority, a host, a port or a file path are
    not modelled: [hierarchical scheme rest] stands for their verdict.
    They are entered for a special scheme and for a remainder that starts
    with "/"; any other remainder is an opaque path, which the parser
    accepts whatever it holds. *)
Definition URL_parses (hierarchical : string -> string -> bool)
    (input : string) : bool :=
  match scheme_start_state (drop_tab_newline (strip_end (strip_start input)))
  with
  | None => false
  | Some (scheme, rest) =>
      if is_special scheme || startsWith "/" rest
      then hierarchical scheme rest
      else true
  end.

(** Whether a string holds a colon. *)
Fixpoint has_colon (s : string) : bool :=
  match s with
  | EmptyString => false
  | String c s' => Ascii.eqb c ":" || has_colon s'
  end.

(** A well-formed URL in the words of the specification, "scheme + host":
    a scheme, then "://", then a host that is not empty. *)
Definition has_scheme_and_host (s : string) : bool :=
  match scheme_start_state s with
  | Some (scheme, rest) =>
      negb (String.eqb scheme EmptyString) &&
      startsWith "//" rest &&
      match substring 2 rest with
      | EmptyString => false
      | String c _ =>
          negb (Ascii.eqb c "/" || Ascii.eqb c "?" || Ascii.eqb c "#")
      end
  | None => false
  end.

End Url.

(** ** [src/actions/ai/fetch-article-actions.ts]: extraction *)

Module FetchArticle.
Import JsString Types Cheerio Url.

(** [ArticleData] of [types/summary-types.ts]. *)
Record ArticleData : Type := mkArticle { url : string; text : string }.

(** What happens to the request [axios.get] sends. *)
Inductive Reply : Type :=
| Responds (status : N) (document : Document)
| NoResponse
| NotSent.

(** The environment of the action: the platform's URL parser beyond the
    scheme, and the network. *)
Record World : Type := mkWorld {
  hierarchical : string -> string -> bool;
  network : string -> Reply
}.

(** The error [axios.get] rejects with: [error.response?.status] and
    whether [error.request] is set. *)
Record AxiosError : Type := mkAxiosError {
  response : option N;
  request : bool
}.

Inductive AxiosResult : Type :=
| Resolved (status : N) (data : Document)
| Rejected (error : AxiosError).

(** The default [validateStatus] of axios. *)
Definition validateStatus (status : N) : bool :=
  (200 <=? status)%N && (status <? 300)%N.

(** [await axios.get(url, ...)]: a response resolves when its status
    passes [validateStatus] and rejects with [error.response] otherwise;
    a request without response rejects with [error.request] only. *)
Definition axios_get (w : World) (url : string) : AxiosResult :=
  match network w url with
  | Responds status document =>
      if validateStatus status then Resolved status document
      else Rejected (mkAxiosError (Some status) true)
  | NoResponse => Rejected (mkAxiosError None true)
  | NotSent => Rejected (mkAxiosError None false)
  end.

(** What the action does to the outside: the call of [axios.get], with
    the [User-Agent] header and the timeout it passes, and the lines
    written with [console.error]. *)
Inductive Effect : Type :=
| AxiosGet (url userAgent : string) (timeout : N)
| ConsoleError (text : string).

Definition USER_AGENT : string :=
  "Mozilla/5.0 (Windows NT 10.0; Win64; x64) AppleWebKit/537.36 (KHTML, like Gecko) Chrome/91.0.4472.124 Safari/537.36".

(** Lines 50-53: the request. *)
Definition HttpGet (url : string) : Effect := AxiosGet url USER_AGENT 10000.

Definition unwanted : list string :=
  ["script"; "style"; "iframe"; "noscript"; "nav"; "footer"; "header"].

Definition content_tags : list string :=
  ["p"; "h1"; "h2"; "h3"; "h4"; "h5"; "h6"].

(** Lines 70-75: the content root. *)
Definition articleContent (d : Document) : list Located :=
  if (0 <? List.length (select d ["article"]))%nat then select d ["article"]
  else if (0 <? List.length (select d ["main"]))%nat then select d ["main"]
  else select d ["body"].

(** Lines 67-84: the text collected from a loaded document. *)
Definition articleText (document : Document) : string :=
  let d := remove_all unwanted document in
  let textElements := find d content_tags (articleContent d) in
  join line_feed
       (filter (fun t => (0 <? String.length t)%nat)
               (map (fun element => trim (textContent (snd element)))
                    textElements)).

(** Lines 103-138: the [catch] of the request. *)
Definition on_error (error : AxiosError)
    : ActionState ArticleData * list Effect :=
  match response error with
  | Some status =>
      if (status =? 403)%N || (status =? 401)%N then
        (Failure
           "Article unavailable: Access denied (possibly behind a paywall).",
         [])
      else if (status =? 404)%N then
        (Failure "Article not found (404).", [])
      else
        (Failure ("Failed to fetch article: HTTP Status " ++ of_number status),
         [])
  | None =>
      if request error then
        (Failure "Network error: Could not reach the server.", [])
      else
        (Failure "An unexpected error occurred while fetching the article.",
         [ConsoleError "Error fetching article:"])
  end.

(** [fetchArticleAction(url)], with the effects in the order they occur. *)
Definition fetchArticleAction (w : World) (url : string)
    : ActionState ArticleData * list Effect :=
  if negb (URL_parses (hierarchical w) url) then
    (Failure "Please enter a valid URL (e.g., https://example.com)", [])
  else
    match axios_get w url with
    | Resolved status data =>
        if negb (status =? 200)%N then
          (Failure ("Failed to fetch article: HTTP Status "
                    ++ of_number status),
           [HttpGet url])
        else
          let articleText := articleText data in
          if (String.length articleText <? 50)%nat then
            (Failure
               "Could not find substantial article content. This might not be an article page or is behind a paywall.",
             [HttpGet url])
          else
            (Success "Article fetched successfully"
               (mkArticle url (trim (collapse_newlines articleText))),
             [HttpGet url])
    | Rejected error =>
        let (r, effects) := on_error error in
        (r, (HttpGet url :: effects)%list)
    end.

(** The failures of the extraction by the names the specification gives
    them, and the message each is reported with. *)
Inductive FailureKind : Type :=
| InvalidInput
| NetworkError
| FetchFailed (status : N)
| AccessDenied
| NotFound
| InsufficientContent.

Definition message_of (k : FailureKind) : string :=
  match k with
  | InvalidInput => "Please enter a valid URL (e.g., https://example.com)"
  | NetworkError => "Network error: Could not reach the server."
  | FetchFailed status =>
      "Failed to fetch article: HTTP Status " ++ of_number status
  | AccessDenied =>
      "Article unavailable: Access denied (possibly behind a paywall)."
  | NotFound => "Article not found (404)."
  | InsufficientContent =>
      "Could not find substantial article content. This might not be an article page or is behind a paywall."
  end.

(** The failure the specification assigns to a status outside 2xx. *)
Definition failure_of_status (status : N) : FailureKind :=
  if (status =? 401)%N || (status =? 403)%N then AccessDenied
  else if (status =? 404)%N then NotFound
  else FetchFailed status.

(** The content root in the words of the specification: the article
    container if there is one, else the main container, else the body. *)
Definition content_root (d : Document) : string :=
  if existsb (occurs "article") d then "article"
  else if existsb (occurs "main") d then "main"
  else "body".

(** The page of the end-to-end example of the specification:
    [<article><h1>Title</h1><p>Word </p></article>], [n] times, in the
    body of a document. *)
Definition example_page (n : nat) : Document :=
  [Element "html"
     [Element "head" [Element "script" [Text "var x = 1;"]];
      Element "body"
        (Element "nav" [Element "p" [Text "Home"]]
         :: repeat (Element "article"
                      [Element "h1" [Text "Title"];
                       Element "p" [Text "Word "]]) n)]].

Fixpoint many_line_feeds (n : nat) : string :=
  match n with
  | O => EmptyString
  | S n' => String "010"%char (many_line_feeds n')
  end.

(** A world in which every URL is answered with the same reply and in
    which the URL parser accepts every authority. *)
Definition world_of (r : Reply) : World :=
  mkWorld (fun _ _ => true) (fun _ => r).

End FetchArticle.

(** ** Shapes of the extracted text *)

Module TextShape.
Import JsString.
(** Two line feeds in a row somewhere in the string. *)
Fixpoint double_lf (s : string) : bool :=
  match s with
  | String c1 ((String c2 _) as t) =>
      (Ascii.eqb c1 "010"%char && Ascii.eqb c2 "010"%char) || double_lf t
  | _ => false
  end.

(** A string that does not begin with white space. *)
Definition no_lead (s : string) : Prop :=
  match s with
  | String c _ => is_white_space c = false
  | EmptyString => True
  end.
End TextShape.

(** ** Quantities of the page layout *)

Module Layout.
Import JsString Utils Types GeneratePng.
Local Open Scope Q_scope.

(** The number of lines the bullets take when set in font [f]. *)
Fixpoint total_lines (env : Env) (f : string) (points : list string) : nat :=
  match points with
  | [] => O
  | point :: rest =>
      (List.length (wrapText (metrics env f) point
                             (maxTextWidth - margin) (margin + 30))
       + total_lines env f rest)%nat
  end.

(** A call of the bullet loop: black, 42px, left-aligned, at the margin
    (the marker) or at the indent (a line of text). *)
Definition is_bullet_call (c : DrawCall) : Prop :=
  exists t x y,
    c = FillText "#000000" (px_Inter bulletFontSize) "left" t x y /\
    (x = margin \/ x = margin + 30).

(** The vertical and the horizontal position of a call: the baseline
    and start of a text, the top left corner of a rectangle. *)
Definition call_y (c : DrawCall) : Q :=
  match c with
  | FillRect _ _ y _ _ => y
  | FillText _ _ _ _ _ y => y
  end.

Definition call_x (c : DrawCall) : Q :=
  match c with
  | FillRect _ x _ _ _ => x
  | FillText _ _ _ _ x _ => x
  end.

(** Calls, in drawing order, that never move up the page and start at
    [lo] or below it. *)
Fixpoint ascending (lo : Q) (calls : list DrawCall) : Prop :=
  match calls with
  | [] => True
  | c :: rest => lo <= call_y c /\ ascending (call_y c) rest
  end.

(** Reading the bullets back from the text calls of a page, in drawing
    order: a text that starts at the margin is the marker that opens a
    bullet, and the texts that follow it at another position are the
    lines of that bullet.  The result is the lines not yet attributed
    to a marker and the bullets found, each as its lines. *)
Fixpoint group_calls (calls : list DrawCall)
    : list string * list (list string) :=
  match calls with
  | [] => ([], [])
  | c :: rest =>
      let (pending, found) := group_calls rest in
      match c with
      | FillText _ _ _ t x _ =>
          if Qeq_bool x margin then ([], pending :: found)
          else (t :: pending, found)
      | FillRect _ _ _ _ _ => (pending, found)
      end
  end.

(** The bullets a reader finds on the page: the lines of each one,
    joined by single spaces. *)
Definition rendered_bullets (calls : list DrawCall) : list string :=
  map (join " ") (snd (group_calls calls)).

(** The three calls of lines 108-132, in drawing order. *)
Definition header_calls (headline subheadline : string) : list DrawCall :=
  [FillRect "#FFFFFF" 0 0 width height;
   FillText "#000000" (px_Inter headlineFontSize) "center" headline
            (width / 2) headlineY;
   FillText "#000000" (px_Inter subheadlineFontSize) "center" subheadline
            (width / 2) subheadlineY].


End Layout.

(** ** [lib/ai.ts]: the call of the summarisation service *)

Module Ai.
Import JsString.

(** The double quote character. *)
Definition dquote : string := String "034"%char EmptyString.

Definition XAI_API_URL : string := "https://api.x.ai/v1/summarize".

Definition SUMMARY_PROMPT : string :=
  line_feed
  ++ "Summarize the following article text in a concise manner. Provide the summary as 3-5 bullet points in a neutral tone. Focus on the main ideas and key details, avoiding any opinion or embellishment. Return the summary as plain text with each bullet point starting with "
  ++ dquote ++ "- " ++ dquote ++ " and separated by newlines." ++ line_feed.

(** The request [axios.post] sends: the URL, the body, the two headers
    and the timeout. *)
Record ApiRequest : Type := mkRequest {
  req_url : string;
  req_text : string;
  req_prompt : string;
  req_max_length : N;
  req_authorization : string;
  req_content_type : string;
  req_timeout : N
}.

(** What comes back.  [Answers s]: a 2xx response, [s] being
    [response.data.summary] when that is a string.  [Refuses]: an axios
    error, with [error.response?.status], [error.response?.data?.message]
    and [error.message].  [Breaks]: any other error, with its message. *)
Inductive ApiReply : Type :=
| Answers (summary : option string)
| Refuses (status : option N) (message : option string)
    (error_message : string)
| Breaks (error_message : string).

(** How a call of [generateSummary] ends: it returns or it throws. *)
Inductive Attempt : Type :=
| Returned (summary : string)
| Thrown (message : string).

(** [`${error.response?.status || "Unknown error"}`]. *)
Definition status_text (status : option N) : string :=
  match status with
  | Some n => if (n =? 0)%N then "Unknown error" else of_number n
  | None => "Unknown error"
  end.

(** [error.response?.data?.message || error.message]. *)
Definition message_text (message : option string) (error_message : string)
    : string :=
  match message with
  | Some m => if GeneratePng.falsy m then error_message else m
  | None => error_message
  end.

(** The second [throw] of the [catch]: an error that is not an axios
    error, among them the one thrown for an invalid summary. *)
Definition unexpected (error_message : string) : Attempt :=
  Thrown ("Unexpected error generating summary: " ++ error_message).

(** [generateSummary(articleText)], with the requests it sends.  [key] is
    [process.env.XAI_API_KEY] and [reply] the answer of the service. *)
Definition generateSummary (key : option string)
    (reply : ApiRequest -> ApiReply) (articleText : string)
    : Attempt * list ApiRequest :=
  let no_key : Attempt * list ApiRequest :=
    (Thrown "XAI_API_KEY is not set in environment variables.", []) in
  match key with
  | None => no_key
  | Some k =>
      if GeneratePng.falsy k then no_key
      else
        let request :=
          mkRequest XAI_API_URL articleText SUMMARY_PROMPT 200
                    ("Bearer " ++ k) "application/json" 15000 in
        match reply request with
        | Answers (Some summary) =>
            if (String.length (trim summary) =? 0)%nat
            then (unexpected "Invalid summary response from xAI API.",
                  [request])
            else (Returned (trim summary), [request])
        | Answers None =>
            (unexpected "Invalid summary response from xAI API.", [request])
        | Refuses status message error_message =>
            (Thrown ("xAI API request failed: " ++ status_text status
                     ++ " - " ++ message_text message error_message),
             [request])
        | Breaks error_message => (unexpected error_message, [request])
        end
  end.

End Ai.

(** ** The server actions on summaries *)

Module Summaries.
Import JsString Types Ai.

(** [InsertSummary] as [generateSummaryAction] fills it: everything but
    the identifier.  Dates are milliseconds. *)
Record InsertSummary : Type := mkInsert {
  ins_userId : string;
  ins_url : string;
  ins_originalText : string;
  ins_summaryText : string;
  ins_createdAt : N;
  ins_updatedAt : N
}.

(** [Partial<InsertSummary>]. *)
Record PartialSummary : Type := mkPartial {
  set_id : option string;
  set_userId : option string;
  set_url : option string;
  set_originalText : option string;
  set_summaryText : option string;
  set_createdAt : option N;
  set_updatedAt : option N
}.

(** [{ summaryText }]. *)
Definition only_summaryText (s : string) : PartialSummary :=
  mkPartial None None None None (Some s) None None.

(** What a statement with [.returning()] gives: rows, or it throws. *)
Inductive DbReturn : Type :=
| Returning (rows : list GeneratePng.SelectSummary)
| DbThrows.

(** What the actions do to the outside, in order. *)
Inductive Event : Type :=
| Requested (r : ApiRequest)
| Inserted (data : InsertSummary)
| Updated (id : string) (data : PartialSummary)
| Logged (l : Log).

(** What the actions read from their environment: the session, the API
    key, the answer of the service to the first and to the second
    attempt, the clock ([clock k] is the [k]-th [new Date()] of the
    action) and the database. *)
Record Env : Type := mkEnv {
  auth : option string;
  XAI_API_KEY : option string;
  api : nat -> ApiRequest -> ApiReply;
  clock : nat -> N;
  insert : InsertSummary -> DbReturn;
  update : string -> PartialSummary -> DbReturn
}.

(** [createSummaryAction(data)]; [data] of the result is [undefined] when
    no row comes back. *)
Definition createSummaryAction (env : Env) (data : InsertSummary)
    : ActionState (option GeneratePng.SelectSummary) * list Event :=
  match insert env data with
  | Returning rows =>
      (Success "Summary created successfully" (hd_error rows),
       [Inserted data])
  | DbThrows =>
      (Failure "Failed to create summary in database.",
       [Inserted data; Logged (Error "Error creating summary:")])
  end.

(** [updateSummaryAction(id, data)], [now] being its [new Date()]. *)
Definition updateSummaryAction (env : Env) (now : N) (id : string)
    (data : PartialSummary)
    : ActionState GeneratePng.SelectSummary * list Event :=
  let patch :=
    mkPartial (set_id data) (set_userId data) (set_url data)
              (set_originalText data) (set_summaryText data)
              (set_createdAt data) (Some now) in
  match update env id patch with
  | Returning [] =>
      (Failure "Summary not found for update.", [Updated id patch])
  | Returning (updatedSummary :: _) =>
      (Success "Summary updated successfully" updatedSummary,
       [Updated id patch])
  | DbThrows =>
      (Failure "Failed to update summary in database.",
       [Updated id patch; Logged (Error "Error updating summary:")])
  end.

(** The two attempts of an action at [generateSummary]: the summary if
    one of them returns, and what happened. *)
Definition with_retry (env : Env) (text warning error : string)
    : option string * list Event :=
  let (first, requests1) :=
    generateSummary (XAI_API_KEY env) (api env 0%nat) text in
  match first with
  | Returned summary => (Some summary, map Requested requests1)
  | Thrown _ =>
      let (second, requests2) :=
        generateSummary (XAI_API_KEY env) (api env 1%nat) text in
      let events :=
        (map Requested requests1 ++ Logged (Warn warning)
           :: map Requested requests2)%list in
      match second with
      | Returned summary => (Some summary, events)
      | Thrown _ => (None, (events ++ [Logged (Error error)])%list)
      end
  end.

(** [generateSummaryAction(article)]. *)
Definition generateSummaryAction (env : Env)
    (article : FetchArticle.ArticleData)
    : ActionState GeneratePng.SelectSummary * list Event :=
  let unauthenticated : ActionState GeneratePng.SelectSummary * list Event :=
    (Failure "User must be authenticated to generate a summary.", []) in
  match auth env with
  | None => unauthenticated
  | Some userId =>
      if GeneratePng.falsy userId then unauthenticated
      else if GeneratePng.falsy (FetchArticle.text article)
              || (String.length (trim (FetchArticle.text article)) =? 0)%nat
      then (Failure "Article text is empty. Cannot generate summary.", [])
      else
        match with_retry env (FetchArticle.text article)
                "First summary generation attempt failed:"
                "Second summary generation attempt failed:" with
        | (None, events) =>
            (Failure "Failed to generate summary after retry.", events)
        | (Some summaryText, events) =>
            let summaryData :=
              mkInsert userId (FetchArticle.url article)
                       (FetchArticle.text article) summaryText
                       (clock env 0%nat) (clock env 1%nat) in
            let (dbResult, stored) := createSummaryAction env summaryData in
            match dbResult with
            | Success _ (Some row) =>
                (Success "Summary generated and stored successfully." row,
                 (events ++ stored)%list)
            | _ =>
                (Failure "Failed to store generated summary in database.",
                 (events ++ stored)%list)
            end
        end
  end.

Definition indent10 : string := "          ".
Definition indent8 : string := "        ".

Definition bullet_format : string :=
  " Return as plain text with each bullet point starting with "
  ++ dquote ++ "- " ++ dquote ++ " and separated by newlines.".

(** The [switch] of [refineSummaryAction]. *)
Definition refine_prompt (opt originalText currentSummary : string)
    : string :=
  if String.eqb opt "shorter" then
    line_feed ++ indent10
    ++ "Take the following summary and make it shorter by approximately 30%, keeping it concise and neutral. Ensure at least 1 bullet point remains."
    ++ bullet_format ++ line_feed
    ++ indent10 ++ "Current summary:" ++ line_feed
    ++ indent10 ++ currentSummary ++ line_feed ++ indent8
  else if String.eqb opt "longer" then
    line_feed ++ indent10
    ++ "Take the following article text and current summary, and expand the summary by approximately 30% in a neutral tone. Limit to a maximum of 10 bullet points."
    ++ bullet_format ++ line_feed
    ++ indent10 ++ "Article text:" ++ line_feed
    ++ indent10 ++ originalText ++ line_feed
    ++ indent10 ++ "Current summary:" ++ line_feed
    ++ indent10 ++ currentSummary ++ line_feed ++ indent8
  else
    line_feed ++ indent10
    ++ "Rewrite the following summary in a neutral tone, keeping the same length and key points."
    ++ bullet_format ++ line_feed
    ++ indent10 ++ "Current summary:" ++ line_feed
    ++ indent10 ++ currentSummary ++ line_feed ++ indent8.

(** [refineSummaryAction(summaryId, originalText, currentSummary, option)];
    the option is the string the caller passes. *)
Definition refineSummaryAction (env : Env)
    (summaryId originalText currentSummary opt : string)
    : ActionState GeneratePng.SelectSummary * list Event :=
  let unauthenticated : ActionState GeneratePng.SelectSummary * list Event :=
    (Failure "User must be authenticated to refine a summary.", []) in
  match auth env with
  | None => unauthenticated
  | Some userId =>
      if GeneratePng.falsy userId then unauthenticated
      else if GeneratePng.falsy summaryId || GeneratePng.falsy currentSummary
              || GeneratePng.falsy originalText
      then
        (Failure
           "Missing required parameters: summaryId, originalText, or currentSummary.",
         [])
      else if negb (existsb (String.eqb opt) ["shorter"; "longer"; "rewrite"])
      then
        (Failure
           "Invalid refinement option. Use 'shorter', 'longer', or 'rewrite'.",
         [])
      else
        let prompt := refine_prompt opt originalText currentSummary in
        match with_retry env prompt "First refinement attempt failed:"
                "Second refinement attempt failed:" with
        | (None, events) =>
            (Failure "Failed to refine summary after retry.", events)
        | (Some refinedSummary, events) =>
            let (dbResult, stored) :=
              updateSummaryAction env (clock env 0%nat) summaryId
                (only_summaryText refinedSummary) in
            match dbResult with
            | Failure _ =>
                (Failure "Failed to update refined summary in database.",
                 (events ++ stored)%list)
            | Success _ row =>
                if negb (String.eqb (GeneratePng.userId row) userId) then
                  (Failure
                     "Unauthorized: You can only refine your own summaries.",
                   (events ++ stored)%list)
                else
                  (Success ("Summary " ++ opt
                            ++ " refinement completed successfully.") row,
                   (events ++ stored)%list)
            end
        end
  end.

Definition is_request (e : Event) : bool :=
  match e with Requested _ => true | _ => false end.

Definition is_insert (e : Event) : bool :=
  match e with Inserted _ => true | _ => false end.

Definition is_update (e : Event) : bool :=
  match e with Updated _ _ => true | _ => false end.

(** The request [generateSummary] sends for [text] with the key [k]. *)
Definition request_for (k text : string) : ApiRequest :=
  mkRequest XAI_API_URL text SUMMARY_PROMPT 200 ("Bearer " ++ k)
            "application/json" 15000.

(** An environment for examples: the user is signed in, the key is set,
    the service answers [reply] to every attempt, and the database
    returns [rows] for every statement. *)
Definition quiet_env (user : string) (reply : ApiReply)
    (rows : list GeneratePng.SelectSummary) : Env :=
  mkEnv (Some user) (Some "key") (fun _ _ => reply) (fun k => N.of_nat k)
        (fun _ => Returning rows) (fun _ _ => Returning rows).

End Summaries.

(** ** The handler of the home page *)

Module HomePage.
Import JsString Types.

(** What the handler leaves behind: the redirect it ends with, if any,
    the effects of the two actions it calls and its own log. *)
Record Outcome : Type := mkOutcome {
  redirect : option string;
  fetched : list FetchArticle.Effect;
  summarised : list Summaries.Event;
  logged : list Log
}.

(** [onSubmitSuccess(articleData)] of [HomePage]. *)
Definition onSubmitSuccess (w : FetchArticle.World) (env : Summaries.Env)
    (articleData : FetchArticle.ArticleData) : Outcome :=
  let (fetchResult, fetched) :=
    FetchArticle.fetchArticleAction w (FetchArticle.url articleData) in
  match fetchResult with
  | Failure _ =>
      mkOutcome None fetched [] [Error "Failed to fetch article:"]
  | Success _ data =>
      let (summaryResult, summarised) :=
        Summaries.generateSummaryAction env data in
      match summaryResult with
      | Failure _ =>
          mkOutcome None fetched summarised
                    [Error "Failed to generate summary:"]
      | Success _ row =>
          mkOutcome (Some ("/summary/" ++ GeneratePng.id row)) fetched
                    summarised []
      end
  end.

End HomePage.

(** ** The URL form *)

Module UrlInput.
Import JsString Types.

(** What [toast] is called with. *)
Record Toast : Type := mkToast {
  title : string;
  description : string;
  variant : string
}.

(** What the client sees of its call of the server action: the result
    the action returned, or a rejection (the call did not come back). *)
Inductive Answer : Type :=
| Answered (result : ActionState FetchArticle.ArticleData)
| Unanswered.

(** How the call of the callback ends: it returns, or it throws.  An
    [async] callback returns its promise, which [onSubmit] does not
    await: what becomes of it is not seen by the [catch]. *)
Inductive Called (H : Type) : Type :=
| Returns (h : H)
| Throws.

Arguments Returns {H} h.
Arguments Throws {H}.

(** The toast and the log of the [catch] of lines 219-225. *)
Definition unexpected_toast : Toast :=
  mkToast "Error" "An unexpected error occurred." "destructive".

Definition submit_error : Log := Error "Error submitting URL:".

(** [onSubmit(values)] of [UrlInput], for [values.url]: the toasts it
    shows, the effects of the action it calls, what it logs, and what
    the callback returned when it was run and returned.
    [fetchArticleAction] is the action as the client reaches it, and
    [onSubmitSuccess] is the optional prop. *)
Definition onSubmit {H : Type}
    (fetchArticleAction : string -> Answer * list FetchArticle.Effect)
    (onSubmitSuccess : option (FetchArticle.ArticleData -> Called H))
    (url : string)
    : list Toast * list FetchArticle.Effect * list Log * option H :=
  let (answer, effects) := fetchArticleAction url in
  match answer with
  | Unanswered => ([unexpected_toast], effects, [submit_error], None)
  | Answered (Success _ data) =>
      let shown :=
        mkToast "Success" "Article fetched successfully." "default" in
      match onSubmitSuccess with
      | None => ([shown], effects, [], None)
      | Some callback =>
          match callback data with
          | Returns h => ([shown], effects, [], Some h)
          | Throws =>
              ([shown; unexpected_toast], effects, [submit_error], None)
          end
      end
  | Answered (Failure message) =>
      ([mkToast "Error"
          (if GeneratePng.falsy message then "Failed to fetch article."
           else message)
          "destructive"],
       effects, [], None)
  end.

(** The action as the client reaches it when every call comes back. *)
Definition served (w : FetchArticle.World) (url : string)
    : Answer * list FetchArticle.Effect :=
  let (result, effects) := FetchArticle.fetchArticleAction w url in
  (Answered result, effects).

End UrlInput.

(* ================================================================= *)
(** * Part II: properties *)
(* ================================================================= *)

(** ** Facts about the string operations *)

Module JsStringFacts.
Import JsString.

Lemma append_empty_r (s : string) : s ++ "" = s.
Proof. induction s as [|c s IH]; simpl; congruence. Qed.

Lemma append_assoc (a b c : string) : (a ++ b) ++ c = a ++ (b ++ c).
Proof. induction a as [|k a IH]; simpl; congruence. Qed.

Lemma split_cons (sep c : ascii) (s : string) :
  split sep (String c s) =
  if Ascii.eqb c sep
  then (EmptyString, split_list sep s)
  else (String c (fst (split sep s)), snd (split sep s)).
Proof.
  unfold split_list; simpl. destruct (split sep s) as [w ws].
  destruct (Ascii.eqb c sep); reflexivity.
Qed.

Lemma split_list_cons (sep c : ascii) (s : string) :
  split_list sep (String c s) =
  if Ascii.eqb c sep
  then EmptyString :: split_list sep s
  else String c (fst (split sep s)) :: snd (split sep s).
Proof.
  unfold split_list at 1. rewrite split_cons.
  destruct (Ascii.eqb c sep); reflexivity.
Qed.

(** Splitting distributes over a separator. *)
Lemma split_list_app (sep : ascii) (a b : string) :
  split_list sep (a ++ String sep b) =
  (split_list sep a ++ split_list sep b)%list.
Proof.
  induction a as [|c a IH].
  - simpl append. rewrite split_list_cons, Ascii.eqb_refl. reflexivity.
  - simpl append. rewrite !split_list_cons.
    destruct (Ascii.eqb c sep).
    + rewrite IH. reflexivity.
    + unfold split_list in IH. injection IH as H1 H2.
      rewrite H1, H2. reflexivity.
Qed.

(** The pieces [split] returns are free of the separator. *)
Lemma split_pieces_free (sep : ascii) (s : string) :
  Forall (sep_free sep) (split_list sep s).
Proof.
  induction s as [|c s IH].
  - repeat constructor.
  - rewrite split_list_cons. destruct (Ascii.eqb c sep) eqn:E.
    + constructor; [reflexivity | exact IH].
    + unfold split_list in IH. inversion IH as [|w ws Hw Hws]; subst.
      constructor; [|exact Hws].
      unfold sep_free in *. rewrite split_cons, E, Hw. reflexivity.
Qed.

Lemma split_list_free (sep : ascii) (w : string) :
  sep_free sep w -> split_list sep w = [w].
Proof. unfold sep_free, split_list. intros ->. reflexivity. Qed.

(** Gluing the pieces back with the separator restores the string. *)
Lemma fold_glue_split (sep : ascii) (s acc : string) :
  fold_left (glue sep) (snd (split sep s)) (acc ++ fst (split sep s))
  = acc ++ s.
Proof.
  revert acc. induction s as [|c s IH]; intro acc.
  - reflexivity.
  - rewrite split_cons. destruct (Ascii.eqb c sep) eqn:E.
    + apply Ascii.eqb_eq in E. subst c. simpl.
      rewrite append_empty_r. unfold glue at 2.
      replace (acc ++ String sep (fst (split sep s)))
        with ((acc ++ String sep "") ++ fst (split sep s))
        by (rewrite append_assoc; reflexivity).
      rewrite IH, append_assoc. reflexivity.
    + simpl fst; simpl snd.
      replace (acc ++ String c (fst (split sep s)))
        with ((acc ++ String c "") ++ fst (split sep s))
        by (rewrite append_assoc; reflexivity).
      rewrite IH, append_assoc. reflexivity.
Qed.

Lemma fold_glue_extends (sep : ascii) (ws : list string) (acc : string) :
  exists t, fold_left (glue sep) ws acc = acc ++ t.
Proof.
  revert acc. induction ws as [|w ws IH]; intro acc.
  - exists "". simpl. now rewrite append_empty_r.
  - simpl. destruct (IH (glue sep acc w)) as [t Ht].
    exists (String sep w ++ t). rewrite Ht. unfold glue.
    now rewrite append_assoc.
Qed.

End JsStringFacts.

(** ** Properties of the word wrap *)

Module UtilsSpec.
Import JsString JsStringFacts Utils.
Local Open Scope Q_scope.

Lemma wrap_loop_cons (measure : string -> Q) (maxWidth x0 : Q)
    (w : string) (rest : list string) (cur : string) :
  wrap_loop measure maxWidth x0 cur (w :: rest) =
  if Qle_bool (measure (glue " "%char cur w)) maxWidth
  then wrap_loop measure maxWidth x0 (glue " "%char cur w) rest
  else mkLine cur x0 :: wrap_loop measure maxWidth x0 w rest.
Proof. reflexivity. Qed.

Lemma wrap_loop_fits (measure : string -> Q) (maxWidth x0 : Q)
    (words : list string) (cur : string) :
  measure cur <= maxWidth ->
  Forall (fun w => measure w <= maxWidth) words ->
  Forall (fun l => measure (text l) <= maxWidth)
         (wrap_loop measure maxWidth x0 cur words).
Proof.
  revert cur. induction words as [|w rest IH]; intros cur Hcur Hws.
  - repeat constructor. exact Hcur.
  - inversion Hws as [|? ? Hw Hrest]; subst. rewrite wrap_loop_cons.
    destruct (Qle_bool (measure (glue " "%char cur w)) maxWidth) eqn:E.
    + apply IH; [now apply Qle_bool_iff | exact Hrest].
    + constructor; [exact Hcur | now apply IH].
Qed.

Lemma wrap_loop_words (measure : string -> Q) (maxWidth x0 : Q)
    (words : list string) (cur : string) :
  Forall (sep_free " "%char) words ->
  flat_map (fun l => words_of (text l))
           (wrap_loop measure maxWidth x0 cur words)
  = (words_of cur ++ words)%list.
Proof.
  revert cur. induction words as [|w rest IH]; intros cur Hws.
  - simpl. reflexivity.
  - inversion Hws as [|? ? Hw Hrest]; subst. rewrite wrap_loop_cons.
    destruct (Qle_bool (measure (glue " "%char cur w)) maxWidth).
    + rewrite IH by exact Hrest. unfold words_of, glue.
      rewrite split_list_app, (split_list_free _ w Hw), <- app_assoc.
      reflexivity.
    + cbn [flat_map text]. rewrite IH by exact Hrest. unfold words_of at 2.
      rewrite (split_list_free _ w Hw). reflexivity.
Qed.

Lemma wrap_loop_single (measure : string -> Q) (maxWidth x0 : Q)
    (words : list string) (cur : string) :
  (forall s t, measure s <= measure (s ++ t)) ->
  measure (fold_left (glue " "%char) words cur) <= maxWidth ->
  wrap_loop measure maxWidth x0 cur words
  = [mkLine (fold_left (glue " "%char) words cur) x0].
Proof.
  intros Hmono. revert cur.
  induction words as [|w rest IH]; intros cur Hfit.
  - reflexivity.
  - rewrite wrap_loop_cons. cbn [fold_left] in *.
    destruct (fold_glue_extends " "%char rest (glue " "%char cur w))
      as [t Ht].
    assert (Hle : measure (glue " "%char cur w) <= maxWidth).
    { eapply Qle_trans; [apply (Hmono _ t) | rewrite <- Ht; exact Hfit]. }
    apply Qle_bool_iff in Hle. rewrite Hle. apply IH. exact Hfit.
Qed.

Lemma wrap_loop_nonempty (measure : string -> Q) (maxWidth x0 : Q)
    (words : list string) (cur : string) :
  wrap_loop measure maxWidth x0 cur words <> [].
Proof.
  revert cur. induction words as [|w rest IH]; intro cur.
  - discriminate.
  - rewrite wrap_loop_cons. destruct (Qle_bool _ _); [apply IH | discriminate].
Qed.

Lemma wrap_loop_offset (measure : string -> Q) (maxWidth x0 : Q)
    (words : list string) (cur : string) :
  Forall (fun l => x l = x0) (wrap_loop measure maxWidth x0 cur words).
Proof.
  revert cur. induction words as [|w rest IH]; intro cur.
  - repeat constructor.
  - rewrite wrap_loop_cons.
    destruct (Qle_bool _ _); [apply IH | constructor; [reflexivity | apply IH]].
Qed.

Example wrapText_greedy :
  wrapText count_chars "the quick brown fox jumps" 11 90
  = [mkLine "the quick" 90; mkLine "brown fox" 90; mkLine "jumps" 90].
Proof. reflexivity. Qed.

Example wrapText_keeps_spaces :
  wrapText count_chars " a  b " 20 0 = [mkLine " a  b " 0].
Proof. reflexivity. Qed.

Lemma wrap_loop_fits_or_word (measure : string -> Q) (maxWidth x0 : Q)
    (words : list string) (cur : string) (allowed : string -> Prop) :
  measure cur <= maxWidth \/ allowed cur ->
  Forall allowed words ->
  Forall (fun l => measure (text l) <= maxWidth \/ allowed (text l))
         (wrap_loop measure maxWidth x0 cur words).
Proof.
  revert cur. induction words as [|w rest IH]; intros cur Hcur Hws.
  - constructor; [exact Hcur | constructor].
  - inversion Hws as [|? ? Hw Hrest]; subst. rewrite wrap_loop_cons.
    destruct (Qle_bool (measure (glue " "%char cur w)) maxWidth) eqn:E.
    + apply IH; [left; now apply Qle_bool_iff | exact Hrest].
    + constructor; [exact Hcur | apply IH; [now right | exact Hrest]].
Qed.

(** Every line [wrapText] returns either fits or is a single word of the
    text. *)
Lemma wrapText_line_fits_or_is_a_word (measure : string -> Q)
    (str : string) (maxWidth x0 : Q) :
  Forall (fun l => measure (text l) <= maxWidth \/
                   In (text l) (words_of str))
         (wrapText measure str maxWidth x0).
Proof.
  unfold wrapText, words_of, split_list.
  destruct (split " "%char str) as [word0 words]. cbn [fst snd].
  apply (wrap_loop_fits_or_word measure maxWidth x0 words word0
           (fun w => In w (word0 :: words))).
  - right. now left.
  - apply Forall_forall. intros w Hw. now right.
Qed.

(** C1, as the claim states it, fails: a word wider than [maxWidth] is
    never measured on its own and is emitted as a line.  With one pixel
    per character, "abcdef" is wider than 3 and comes back as one line of
    width 6. *)
Lemma wrapText_long_word_overflows :
  ~ (forall (measure : string -> Q) (str : string) (maxWidth x0 : Q),
        maxWidth < measure str ->
        Forall (fun l => measure (text l) <= maxWidth)
               (wrapText measure str maxWidth x0)).
Proof.
  intro H. specialize (H count_chars "abcdef" 3 0).
  assert (Hwide : 3 < count_chars "abcdef") by reflexivity.
  specialize (H Hwide). inversion H as [|l ls Hl _]; subst.
  vm_compute in Hl. apply Hl. reflexivity.
Qed.

(** C1 (amended): for every text-measurement function, every line
    [wrapText] produces either has measured width at most [maxWidth] or
    is one single word of the bullet that is itself wider than
    [maxWidth]; in particular, if every single word of the bullet has
    measured width at most [maxWidth], then so has every line. *)
Theorem wrapText_lines_fit (measure : string -> Q) (str : string)
    (maxWidth x0 : Q) :
  Forall (fun l => measure (text l) <= maxWidth \/
                   (maxWidth < measure (text l) /\
                    In (text l) (words_of str)))
         (wrapText measure str maxWidth x0)
  /\ (Forall (fun w => measure w <= maxWidth) (words_of str) ->
      Forall (fun l => measure (text l) <= maxWidth)
             (wrapText measure str maxWidth x0)).
Proof.
  unfold wrapText, words_of, split_list.
  destruct (split " "%char str) as [word0 words]. cbn [fst snd].
  split.
  - pose proof (wrap_loop_fits_or_word measure maxWidth x0 words word0
                  (fun w => In w (word0 :: words))) as H.
    cbn beta in H.
    assert (Hl : Forall (fun l => measure (text l) <= maxWidth \/
                                  In (text l) (word0 :: words))
                        (wrap_loop measure maxWidth x0 word0 words)).
    { apply H; [right; now left|].
      apply Forall_forall. intros w Hw. now right. }
    eapply Forall_impl; [|exact Hl]. cbn beta. intros l [Hfit|Hword].
    + now left.
    + destruct (Qlt_le_dec maxWidth (measure (text l))) as [Hwide|Hfit];
        [right; now split | now left].
  - intro H. inversion H; subst. now apply wrap_loop_fits.
Qed.

Lemma wrapText_lines_fit_witness :
  Forall (fun w => count_chars w <= 5) (words_of "aa bb cc") /\
  Forall (fun l => count_chars (text l) <= 5)
         (wrapText count_chars "aa bb cc" 5 0).
Proof.
  assert (H : Forall (fun w => count_chars w <= 5) (words_of "aa bb cc")).
  { repeat constructor; vm_compute; discriminate. }
  split; [exact H|].
  exact (proj2 (wrapText_lines_fit count_chars "aa bb cc" 5 0) H).
Defined.

(** C2: for every bullet string, the words of the lines [wrapText]
    returns, concatenated in order, are exactly the words of the input:
    none is lost, duplicated or reordered. *)
Theorem wrapText_preserves_words (measure : string -> Q) (str : string)
    (maxWidth x0 : Q) :
  List.concat (map (fun l => words_of (text l))
              (wrapText measure str maxWidth x0))
  = words_of str.
Proof.
  rewrite <- flat_map_concat_map. unfold wrapText.
  pose proof (split_pieces_free " "%char str) as Hfree.
  unfold words_of at 2. unfold split_list in *.
  destruct (split " "%char str) as [word0 words]. cbn [fst snd] in *.
  inversion Hfree as [|? ? H0 Hws]; subst.
  rewrite wrap_loop_words by exact Hws.
  unfold words_of. now rewrite (split_list_free _ word0 H0).
Qed.

(** C7: for every bullet string whose whole measured width is at most
    [maxWidth], [wrapText] returns exactly one line, whose text is the
    input string.  The measure is that of a canvas: extending a text never
    makes it narrower. *)
Theorem wrapText_fitting_text_one_line (measure : string -> Q)
    (str : string) (maxWidth x0 : Q) :
  (forall s t, measure s <= measure (s ++ t)) ->
  measure str <= maxWidth ->
  wrapText measure str maxWidth x0 = [mkLine str x0].
Proof.
  intros Hmono Hfit. unfold wrapText.
  pose proof (fold_glue_split " "%char str "") as Hglue.
  destruct (split " "%char str) as [word0 words]. cbn [fst snd append] in Hglue.
  rewrite <- Hglue in Hfit |- * at 1.
  rewrite (wrap_loop_single measure maxWidth x0 words word0 Hmono Hfit).
  reflexivity.
Qed.

Lemma count_chars_monotone (s t : string) :
  count_chars s <= count_chars (s ++ t).
Proof.
  unfold count_chars. rewrite <- Zle_Qle. apply Nat2Z.inj_le.
  induction s as [|c s IH]; simpl; lia.
Qed.

Lemma wrapText_fitting_text_one_line_witness :
  count_chars "to be or not" <= 12 /\
  wrapText count_chars "to be or not" 12 90
  = [mkLine "to be or not" 90].
Proof.
  assert (H : count_chars "to be or not" <= 12) by (vm_compute; discriminate).
  split; [exact H|].
  exact (wrapText_fitting_text_one_line count_chars "to be or not" 12 90
           count_chars_monotone H).
Defined.

End UtilsSpec.

(** ** Properties of the page rendering *)

Module GeneratePngSpec.
Import JsString JsStringFacts Utils UtilsSpec Types GeneratePng.
Local Open Scope Q_scope.

Lemma startsWith_append (p t : string) : startsWith p (p ++ t) = true.
Proof.
  unfold startsWith. induction p as [|c p IH]; simpl.
  - destruct t; reflexivity.
  - destruct (ascii_dec c c) as [_|N]; [exact IH | now elim N].
Qed.

Lemma substring_append (p t : string) :
  substring (String.length p) (p ++ t) = t.
Proof. induction p as [|c p IH]; simpl; [now destruct t | exact IH]. Qed.

Lemma startsWith_split (p s : string) :
  startsWith p s = true -> s = p ++ substring (String.length p) s.
Proof.
  unfold startsWith. revert s. induction p as [|c p IH]; intros s H.
  - now destruct s.
  - destruct s as [|d s]; simpl in H; [discriminate|].
    destruct (ascii_dec c d) as [->|]; [|discriminate].
    simpl. f_equal. now apply IH.
Qed.

Lemma trimStart_blank (indent l : string) :
  blank indent = true -> trimStart (indent ++ l) = trimStart l.
Proof.
  induction indent as [|c indent IH]; simpl; intro H; [reflexivity|].
  apply andb_prop in H as [Hc Hrest]. rewrite Hc. now apply IH.
Qed.

Lemma marked_lines_filter_map (ls : list string) :
  marked_lines ls
    (map (fun line => substring 2 (trim line))
         (filter (fun line => startsWith "- " (trim line)) ls)).
Proof.
  induction ls as [|l ls IH]; simpl; [constructor|].
  destruct (startsWith "- " (trim l)) eqn:E.
  - simpl. constructor; [|exact IH].
    exact (startsWith_split "- " (trim l) E).
  - apply marked_omit; [|exact IH].
    intros b Hb. rewrite Hb, startsWith_append in E. discriminate.
Qed.

Lemma marked_lines_functional (ls bs bs' : list string) :
  marked_lines ls bs -> marked_lines ls bs' -> bs = bs'.
Proof.
  intro H. revert bs'.
  induction H as [|l ls b bs Hl _ IH|l ls bs Hl _ IH]; intros bs' H';
    inversion H' as [|? ? b' ? Hl' Hrest|? ? ? Hl' Hrest]; subst.
  - reflexivity.
  - rewrite Hl in Hl'. apply (f_equal (substring 2)) in Hl'.
    change 2%nat with (String.length "- ") in Hl'.
    rewrite !substring_append in Hl'. subst b'. f_equal. now apply IH.
  - now elim (Hl' b).
  - now elim (Hl b').
  - now apply IH.
Qed.

Lemma bulletPoints_one_line (l : string) :
  sep_free "010"%char l ->
  bulletPoints l
  = if startsWith "- " (trim l) then [substring 2 (trim l)] else [].
Proof.
  intro H. unfold bulletPoints. rewrite (split_list_free _ l H).
  cbn [filter]. destruct (startsWith "- " (trim l)); reflexivity.
Qed.

(** The bullets are taken line by line. *)
Lemma bulletPoints_app (a b : string) :
  bulletPoints (a ++ String "010"%char b)
  = (bulletPoints a ++ bulletPoints b)%list.
Proof.
  unfold bulletPoints. now rewrite split_list_app, filter_app, map_app.
Qed.

(** The list of lines 135-138 holds exactly the newline-separated lines
    whose trimmed form starts with "- ", each without that marker and in
    the order of the text; white space in front of the marker does not
    matter, and every other line gives no bullet. *)
Lemma bulletPoints_are_the_marked_lines (summaryText : string) :
  marked_lines (split_list "010"%char summaryText)
               (bulletPoints summaryText)
  /\ (forall bs, marked_lines (split_list "010"%char summaryText) bs ->
                 bs = bulletPoints summaryText)
  /\ (forall indent l, blank indent = true ->
        sep_free "010"%char l -> sep_free "010"%char (indent ++ l) ->
        bulletPoints (indent ++ l) = bulletPoints l)
  /\ (forall l, sep_free "010"%char l ->
        startsWith "- " (trim l) = false -> bulletPoints l = []).
Proof.
  pose proof (marked_lines_filter_map (split_list "010"%char summaryText))
    as H.
  repeat split.
  - exact H.
  - intros bs Hbs. exact (marked_lines_functional _ _ _ Hbs H).
  - intros indent l Hb Hl Hil. rewrite !bulletPoints_one_line by assumption.
    unfold trim. now rewrite trimStart_blank.
  - intros l Hl E. now rewrite bulletPoints_one_line, E.
Qed.

Example bulletPoints_three :
  bulletPoints ("- A" ++ String "010"%char ("- B" ++ String "010"%char "- C"))
  = ["A"; "B"; "C"].
Proof. reflexivity. Qed.

Example bulletPoints_mixed :
  bulletPoints ("Summary:" ++ String "010"%char
                ("   - indented  " ++ String "010"%char
                ("-nospace" ++ String "010"%char
                ("plain text" ++ String "010"%char "- last"))))
  = ["indented"; "last"].
Proof. reflexivity. Qed.

Lemma lineHeight_pos : 0 < lineHeight.
Proof. reflexivity. Qed.

Lemma draw_lines_cursor (ctx : Context2D) (y : Q) (ls : list Line) :
  y <= snd (draw_lines ctx y ls).
Proof.
  revert ctx y. induction ls as [|l ls IH]; intros ctx y; simpl.
  - lra.
  - specialize (IH (fillText (text l) (x l) y ctx) (y + lineHeight)).
    pose proof lineHeight_pos. lra.
Qed.

Lemma draw_lines_surface (ctx : Context2D) (y : Q) (ls : list Line) :
  canvas_width (fst (draw_lines ctx y ls)) = canvas_width ctx /\
  canvas_height (fst (draw_lines ctx y ls)) = canvas_height ctx.
Proof.
  revert ctx y. induction ls as [|l ls IH]; intros ctx y; simpl.
  - split; reflexivity.
  - destruct (IH (fillText (text l) (x l) y ctx) (y + lineHeight)) as [Hw Hh].
    rewrite Hw, Hh. split; reflexivity.
Qed.

Lemma draw_bullets_cons (env : Env) (ctx : Context2D) (y : Q)
    (point : string) (rest : list string) :
  draw_bullets env ctx y (point :: rest) =
  let ctx1 := fillText bulletSymbol margin y ctx in
  let r := draw_lines ctx1 y
             (wrapText (measureText env ctx1) point (maxTextWidth - margin)
                       (margin + 30)) in
  draw_bullets env (fst r) (snd r + lineHeight * 0.5) rest.
Proof. simpl. destruct (draw_lines _ _ _); reflexivity. Qed.

Lemma draw_bullets_surface (env : Env) (points : list string)
    (ctx : Context2D) (y : Q) :
  canvas_width (fst (draw_bullets env ctx y points)) = canvas_width ctx /\
  canvas_height (fst (draw_bullets env ctx y points)) = canvas_height ctx.
Proof.
  revert ctx y. induction points as [|point rest IH]; intros ctx y.
  - split; reflexivity.
  - rewrite draw_bullets_cons. cbv zeta.
    match goal with |- context [draw_bullets env ?c ?y' rest] =>
      destruct (IH c y') as [Hw Hh]; rewrite Hw, Hh end.
    match goal with |- context [draw_lines ?c ?y' ?ls] =>
      destruct (draw_lines_surface c y' ls) as [Hw' Hh']; rewrite Hw', Hh' end.
    split; reflexivity.
Qed.


Lemma render_succeeds (env : Env) (ctx0 : Context2D)
    (summary : SelectSummary) (headline subheadline : string) :
  let endY := snd (draw_bullets env (draw_header ctx0 headline subheadline)
                     bulletStartY (bulletPoints (summaryText summary))) in
  exists img,
    render env ctx0 summary headline subheadline
    = (Success "PNG generated successfully." img,
       if Qle_bool endY (height - margin) then []
       else [Warn "Text overflow detected; truncating content."])
    /\ png_width img = canvas_width ctx0
    /\ png_height img = canvas_height ctx0.
Proof.
  cbv zeta. unfold render.
  pose proof (draw_bullets_surface env (bulletPoints (summaryText summary))
                (draw_header ctx0 headline subheadline) bulletStartY)
    as [Hw Hh].
  destruct (draw_bullets env _ bulletStartY _) as [ctx y].
  cbn [fst snd] in *. eexists. split; [reflexivity|].
  unfold toDataURL; cbn [png_width png_height]. rewrite Hw, Hh.
  split; reflexivity.
Qed.


Lemma falsy_false (s : string) : s <> "" -> falsy s = false.
Proof. destruct s; [now intros [] | reflexivity]. Qed.

(** The loop does not stop at the end of the page: the calls for the
    bullets that do not fit are issued with coordinates below the surface,
    and it is the surface that drops them. *)
Example overflowing_page_still_succeeds :
  let summary := mkSummary "s1" "user_1" "" "" (many_bullets 40) in
  let r := generatePngAction (fake_env "user_1" summary) "s1" "H" "S" in
  isSuccess (fst r) = true /\
  snd r = [Warn "Text overflow detected; truncating content."] /\
  match fst r with
  | Success _ img =>
      existsb (fun c => match c with
                        | FillText _ _ _ _ _ y => negb (Qle_bool y height)
                        | FillRect _ _ _ _ _ => false
                        end) (png_calls img) = true
  | Failure _ => False
  end.
Proof. vm_compute. repeat split; reflexivity. Qed.

End GeneratePngSpec.

(** ** Facts about documents and selections *)

Module CheerioFacts.
Import JsString Cheerio.
Local Open Scope list_scope.

Lemma Node_induction (P : Node -> Prop) :
  (forall d, P (Text d)) -> (forall d, P (Comment d)) ->
  (forall name kids, Forall P kids -> P (Element name kids)) ->
  forall n, P n.
Proof.
  intros HT HC HE. fix IH 1. intros [d|d|name kids].
  - apply HT.
  - apply HC.
  - apply HE. induction kids as [|k kids IHk]; constructor;
      [apply IH | exact IHk].
Qed.

Lemma subtree_Element (p : Path) (name : string) (kids : list Node) :
  subtree p (Element name kids) = (p, Element name kids) :: forest p 0 kids.
Proof.
  simpl. f_equal. generalize 0%nat.
  induction kids as [|k kids IH]; intro i; simpl; [reflexivity|].
  f_equal. apply IH.
Qed.

Lemma is_ancestor_nil_r (a : Path) : is_ancestor a [] = false.
Proof. now destruct a. Qed.

(** The ancestors of a child are its parent and the ancestors of its
    parent. *)
Lemma is_ancestor_snoc (a p : Path) (i : nat) :
  is_ancestor a (p ++ [i]) = is_ancestor a p || path_eqb a p.
Proof.
  revert p. induction a as [|x a IH]; intros [|y p]; simpl; try reflexivity.
  - now rewrite is_ancestor_nil_r, andb_false_r.
  - rewrite IH. now rewrite andb_orb_distrib_r.
Qed.

Lemma has_ancestor_snoc (sel : list Located) (p : Path) (i : nat) :
  has_ancestor_in sel (p ++ [i]) = has_ancestor_in sel p || holds sel p.
Proof.
  unfold has_ancestor_in, holds.
  induction sel as [|s sel IH]; simpl; [reflexivity|].
  rewrite IH, is_ancestor_snoc.
  destruct (is_ancestor (fst s) p), (path_eqb (fst s) p),
    (existsb (fun s0 => is_ancestor (fst s0) p) sel); reflexivity.
Qed.

Lemma path_eqb_eq (a b : Path) : path_eqb a b = true <-> a = b.
Proof.
  revert b. induction a as [|x a IH]; intros [|y b]; simpl; split;
    try easy.
  - intro H. apply andb_prop in H as [H1 H2]. apply Nat.eqb_eq in H1.
    apply IH in H2. congruence.
  - intro H. injection H as -> ->. rewrite Nat.eqb_refl. now apply IH.
Qed.

Lemma below_weaken (p : Path) (lo hi lo' hi' : nat) (e : Located) :
  (lo' <= lo)%nat -> (hi <= hi')%nat -> below p lo hi e -> below p lo' hi' e.
Proof. intros ? ? (j & r & ? & ?). exists j, r. split; [lia | assumption]. Qed.

Lemma forest_below_from (l : list Node) :
  Forall (fun k => forall p, Forall (fun e => exists r, fst e = p ++ r)
                                    (subtree p k)) l ->
  forall p i, Forall (below p i (i + List.length l)) (forest p i l).
Proof.
  induction 1 as [|k l Hk _ IH]; intros p i; simpl; [constructor|].
  apply Forall_app. split.
  - eapply Forall_impl; [|apply (Hk (p ++ [i]))].
    intros e [r Hr]. exists i, r. split; [lia|].
    now rewrite Hr, <- app_assoc.
  - eapply Forall_impl; [|apply (IH p (S i))].
    intros e. apply below_weaken; lia.
Qed.

(** The positions in a subtree extend the position of its root. *)
Lemma subtree_extends (n : Node) (p : Path) :
  Forall (fun e => exists r, fst e = p ++ r) (subtree p n).
Proof.
  revert p. induction n as [d|d|name kids IH] using Node_induction; intro p.
  - repeat constructor. exists []. now rewrite app_nil_r.
  - repeat constructor. exists []. now rewrite app_nil_r.
  - rewrite subtree_Element. constructor.
    + exists []. now rewrite app_nil_r.
    + eapply Forall_impl; [|apply (forest_below_from kids IH p 0)].
      intros e (j & r & _ & Hr). now exists (j :: r).
Qed.

Lemma forest_below (p : Path) (i : nat) (l : list Node) :
  Forall (below p i (i + List.length l)) (forest p i l).
Proof.
  apply forest_below_from. apply Forall_forall. intros k _ q.
  apply subtree_extends.
Qed.

(** No two nodes of a document share a position. *)
Lemma forest_positions_from (l : list Node) :
  Forall (fun n => forall p e e', In e (subtree p n) -> In e' (subtree p n) ->
                   fst e = fst e' -> e = e') l ->
  forall p i e e', In e (forest p i l) -> In e' (forest p i l) ->
                   fst e = fst e' -> e = e'.
Proof.
  induction 1 as [|k l Hk _ IH]; intros p i e e'; simpl; [easy|].
  intros He He' E.
  pose proof (subtree_extends k (p ++ [i])) as Hsub.
  pose proof (forest_below p (S i) l) as Hfor.
  rewrite Forall_forall in Hsub, Hfor.
  apply in_app_or in He as [He|He]; apply in_app_or in He' as [He'|He'].
  - now apply (Hk (p ++ [i])).
  - exfalso. destruct (Hsub e He) as [r Hr].
    destruct (Hfor e' He') as (j & r' & Hj & Hr').
    rewrite Hr, Hr', <- app_assoc in E. apply app_inv_head in E.
    simpl in E. injection E as E _. lia.
  - exfalso. destruct (Hsub e' He') as [r Hr].
    destruct (Hfor e He) as (j & r' & Hj & Hr').
    rewrite Hr, Hr', <- app_assoc in E. apply app_inv_head in E.
    simpl in E. injection E as E _. lia.
  - now apply (IH p (S i)).
Qed.

Lemma subtree_positions (n : Node) (p : Path) (e e' : Located) :
  In e (subtree p n) -> In e' (subtree p n) -> fst e = fst e' -> e = e'.
Proof.
  revert p e e'.
  induction n as [d|d|name kids IH] using Node_induction; intros p e e'.
  - simpl. intros [<-|[]] [<-|[]] _. reflexivity.
  - simpl. intros [<-|[]] [<-|[]] _. reflexivity.
  - rewrite subtree_Element.
    pose proof (forest_below p 0 kids) as Hfor. rewrite Forall_forall in Hfor.
    assert (Hhead : forall x, In x (forest p 0 kids) -> fst x <> p).
    { intros x Hx Ex. destruct (Hfor x Hx) as (j & r & _ & Hr).
      rewrite Hr in Ex. apply (f_equal (@List.length nat)) in Ex.
      rewrite length_app in Ex. simpl in Ex. lia. }
    intros [<-|He] [<-|He'] E.
    + reflexivity.
    + now elim (Hhead e' He').
    + now elim (Hhead e He).
    + now apply (forest_positions_from kids IH p 0).
Qed.

Lemma forest_positions (l : list Node) (p : Path) (i : nat)
    (e e' : Located) :
  In e (forest p i l) -> In e' (forest p i l) -> fst e = fst e' -> e = e'.
Proof.
  apply forest_positions_from. apply Forall_forall. intros n _ q.
  apply subtree_positions.
Qed.

Lemma has_name_single (root name : string) (kids : list Node) :
  has_name [root] (Element name kids) = String.eqb name root.
Proof. simpl. apply orb_false_r. Qed.

(** [find] on a selection by tag name against the traversal [within]. *)
Section FindWithin.

Variables (doc : Document) (root : string) (names : list string).

Lemma holds_select (e : Located) :
  In e (located_in doc) ->
  holds (select doc [root]) (fst e) = has_name [root] (snd e).
Proof.
  intro He. unfold holds. destruct (has_name [root] (snd e)) eqn:E.
  - apply existsb_exists. exists e. split.
    + apply filter_In. now split.
    + now apply path_eqb_eq.
  - apply not_true_is_false. intro H.
    apply existsb_exists in H as (s & Hs & Hp).
    apply filter_In in Hs as [Hs Hn]. apply path_eqb_eq in Hp.
    assert (s = e) by (apply (forest_positions doc [] 0); assumption).
    subst s. congruence.
Qed.

Lemma find_forest_from (l : list Node) :
  Forall (fun n => forall p, incl (subtree p n) (located_in doc) ->
            map snd (filter (fun e => has_name names (snd e)
                               && has_ancestor_in (select doc [root]) (fst e))
                            (subtree p n))
            = within root names (has_ancestor_in (select doc [root]) p) n)
         l ->
  forall p i inside,
    incl (forest p i l) (located_in doc) ->
    (forall j, has_ancestor_in (select doc [root]) (p ++ [j]) = inside) ->
    map snd (filter (fun e => has_name names (snd e)
                       && has_ancestor_in (select doc [root]) (fst e))
                    (forest p i l))
    = flat_map (within root names inside) l.
Proof.
  induction 1 as [|k l Hk _ IH]; intros p i inside Hincl Hin; [reflexivity|].
  cbn [forest flat_map]. rewrite filter_app, map_app.
  rewrite Hk, Hin, (IH p (S i) inside); [reflexivity| |assumption|].
  - intros e He. apply Hincl. cbn [forest]. apply in_or_app. now right.
  - intros e He. apply Hincl. cbn [forest]. apply in_or_app. now left.
Qed.

Lemma find_subtree (n : Node) (p : Path) :
  incl (subtree p n) (located_in doc) ->
  map snd (filter (fun e => has_name names (snd e)
                     && has_ancestor_in (select doc [root]) (fst e))
                  (subtree p n))
  = within root names (has_ancestor_in (select doc [root]) p) n.
Proof.
  revert p. induction n as [d|d|name kids IH] using Node_induction;
    intros p Hincl; try reflexivity.
  rewrite subtree_Element in *. cbn [filter fst snd within has_name].
  rewrite (andb_comm (has_ancestor_in (select doc [root]) p)).
  assert (Hrest :
    map snd (filter (fun e => has_name names (snd e)
                       && has_ancestor_in (select doc [root]) (fst e))
                    (forest p 0 kids))
    = flat_map (within root names
                  (has_ancestor_in (select doc [root]) p
                   || String.eqb name root)) kids).
  { apply (find_forest_from kids IH).
    - intros e He. apply Hincl. now right.
    - intro j. rewrite has_ancestor_snoc. f_equal.
      pose proof (holds_select (p, Element name kids)) as Hh.
      cbn [fst snd] in Hh. rewrite Hh.
      + apply has_name_single.
      + apply Hincl. now left. }
  destruct (existsb (String.eqb name) names
            && has_ancestor_in (select doc [root]) p);
    cbn [map snd app]; now rewrite Hrest.
Qed.

(** [find] on a selection by tag name lists, in document order, the
    elements that lie strictly within a selected element. *)
Lemma find_select_within :
  map snd (find doc names (select doc [root]))
  = flat_map (within root names false) doc.
Proof.
  unfold find, located_in.
  apply find_forest_from.
  - apply Forall_forall. intros n _ p. apply find_subtree.
  - apply incl_refl.
  - intro j. rewrite has_ancestor_snoc.
    unfold has_ancestor_in, holds.
    assert (H : forall s, In s (select doc [root]) -> fst s <> []).
    { intros s Hs E. apply filter_In in Hs as [Hs _].
      pose proof (forest_below [] 0 doc) as Hb. rewrite Forall_forall in Hb.
      destruct (Hb s Hs) as (k & r & _ & Hr). rewrite Hr in E. discriminate. }
    induction (select doc [root]) as [|s l IHl]; [reflexivity|].
    cbn [existsb]. rewrite is_ancestor_nil_r.
    assert (path_eqb (fst s) [] = false) as ->.
    { apply not_true_is_false. intro A. apply path_eqb_eq in A.
      now apply (H s (or_introl eq_refl)). }
    apply IHl. intros; apply H; now right.
Qed.

End FindWithin.

Lemma named_forest_from (names : list string) (l : list Node) :
  Forall (fun n => forall p,
            map snd (filter (fun e => has_name names (snd e)) (subtree p n))
            = named names n) l ->
  forall p i,
    map snd (filter (fun e => has_name names (snd e)) (forest p i l))
    = flat_map (named names) l.
Proof.
  induction 1 as [|n l Hn _ IH]; intros p i; simpl; [reflexivity|].
  now rewrite filter_app, map_app, Hn, IH.
Qed.

Lemma named_subtree (names : list string) (n : Node) (p : Path) :
  map snd (filter (fun e => has_name names (snd e)) (subtree p n))
  = named names n.
Proof.
  revert p. induction n as [d|d|name kids IH] using Node_induction; intro p;
    try reflexivity.
  rewrite subtree_Element. cbn [filter snd has_name named].
  destruct (existsb (String.eqb name) names); cbn [map snd app];
    now rewrite (named_forest_from names kids IH).
Qed.

(** A selection by tag name lists the elements of that name in document
    order. *)
Lemma select_named (names : list string) (d : Document) :
  map snd (select d names) = flat_map (named names) d.
Proof.
  apply named_forest_from. apply Forall_forall. intros n _ q.
  apply named_subtree.
Qed.

Lemma occurs_named (name : string) (n : Node) :
  occurs name n = negb (match named [name] n with [] => true | _ => false end).
Proof.
  induction n as [t|t|name' kids IH] using Node_induction; try reflexivity.
  cbn [occurs named existsb]. rewrite orb_false_r.
  destruct (String.eqb name' name); [reflexivity|]. cbn [orb app].
  induction IH as [|k kids Hk _ IHk]; [reflexivity|].
  cbn [existsb flat_map]. rewrite Hk, IHk.
  destruct (named [name] k); reflexivity.
Qed.

(** A selection by tag name is not empty exactly when an element of that
    name occurs in the document. *)
Lemma select_present (name : string) (d : Document) :
  (0 <? List.length (select d [name]))%nat = existsb (occurs name) d.
Proof.
  rewrite <- (length_map snd), select_named.
  induction d as [|k d IH]; [reflexivity|].
  cbn [flat_map existsb]. rewrite <- IH, occurs_named, length_app.
  destruct (named [name] k); simpl; reflexivity.
Qed.

Lemma existsb_flat_map {A B : Type} (f : B -> bool) (g : A -> list B)
    (l : list A) :
  existsb f (flat_map g l) = existsb (fun a => existsb f (g a)) l.
Proof.
  induction l as [|a l IH]; simpl; [reflexivity|].
  now rewrite existsb_app, IH.
Qed.

(** After [remove], no element with one of the removed names is left. *)
Lemma remove_clears (names : list string) (name : string) (n : Node) :
  In name names -> existsb (occurs name) (remove names n) = false.
Proof.
  intro Hin.
  induction n as [t|t|name' kids IH] using Node_induction; try reflexivity.
  cbn [remove]. destruct (existsb (String.eqb name') names) eqn:E;
    [reflexivity|].
  cbn [existsb occurs]. rewrite orb_false_r.
  assert (Hne : String.eqb name' name = false).
  { apply not_true_is_false. intro A. apply String.eqb_eq in A. subst name'.
    assert (existsb (String.eqb name) names = true); [|congruence].
    apply existsb_exists. exists name. split; [exact Hin|].
    apply String.eqb_refl. }
  rewrite Hne. cbn [orb]. rewrite existsb_flat_map.
  induction IH as [|k kids Hk _ IHk]; [reflexivity|].
  cbn [existsb]. now rewrite Hk, IHk.
Qed.

Lemma remove_all_clears (names : list string) (name : string)
    (doc : Document) :
  In name names -> existsb (occurs name) (remove_all names doc) = false.
Proof.
  intro Hin. unfold remove_all. rewrite existsb_flat_map.
  induction doc as [|n doc IH]; [reflexivity|].
  cbn [existsb]. now rewrite (remove_clears names name n Hin), IH.
Qed.

End CheerioFacts.

(** ** Properties of the extraction *)

Module FetchArticleSpec.
Import JsString JsStringFacts Types Cheerio CheerioFacts Url FetchArticle.

Example of_number_404 : of_number 404 = "404".
Proof. reflexivity. Qed.

Example https_url_parses :
  URL_parses (fun _ _ => true) " https://example.com/a?b#c " = true.
Proof. reflexivity. Qed.

Example no_scheme_is_rejected (h : string -> string -> bool) :
  URL_parses h "example.com/article" = false.
Proof. reflexivity. Qed.

(** C5: the fetch step never turns a failed request into a success.  A
    status outside 2xx gives AccessDenied for 401 and 403, NotFound for
    404 and FetchFailed with the status otherwise; a request without any
    response gives NetworkError; and a 2xx status other than 200 gives
    FetchFailed with that status. *)
Theorem fetch_failures_are_typed (w : World) (url : string) :
  URL_parses (hierarchical w) url = true ->
  (forall status document,
      network w url = Responds status document ->
      validateStatus status = false ->
      fetchArticleAction w url
      = (Failure (message_of (failure_of_status status)), [HttpGet url]))
  /\ (network w url = NoResponse ->
      fetchArticleAction w url
      = (Failure (message_of NetworkError), [HttpGet url]))
  /\ (forall status document,
      network w url = Responds status document ->
      validateStatus status = true -> status <> 200%N ->
      fetchArticleAction w url
      = (Failure (message_of (FetchFailed status)), [HttpGet url])).
Proof.
  intro Hurl. unfold fetchArticleAction, axios_get. rewrite Hurl. cbn [negb].
  repeat split.
  - intros status document Hnet Hval. rewrite Hnet, Hval.
    unfold on_error, failure_of_status. cbn [response].
    rewrite (orb_comm (status =? 403)%N).
    destruct ((status =? 401)%N || (status =? 403)%N); [reflexivity|].
    destruct (status =? 404)%N; reflexivity.
  - intros Hnet. rewrite Hnet. reflexivity.
  - intros status document Hnet Hval Hne. rewrite Hnet, Hval.
    apply N.eqb_neq in Hne. rewrite Hne. reflexivity.
Qed.

Lemma fetch_failures_are_typed_witness :
  URL_parses (hierarchical (world_of (Responds 403 [])))
             "https://example.com/a" = true /\
  fetchArticleAction (world_of (Responds 403 [])) "https://example.com/a"
  = (Failure (message_of AccessDenied), [HttpGet "https://example.com/a"]).
Proof.
  assert (H : URL_parses (hierarchical (world_of (Responds 403 [])))
                         "https://example.com/a" = true) by reflexivity.
  split; [exact H|].
  exact (proj1 (fetch_failures_are_typed (world_of (Responds 403 []))
                  "https://example.com/a" H)
           403%N [] eq_refl eq_refl).
Defined.

Lemma of_number_injective (m n : N) : of_number m = of_number n -> m = n.
Proof.
  unfold of_number. intro H.
  assert (Hnn : forall k, N.to_uint k <> Decimal.Nil).
  { intros [|q]; [discriminate|]. simpl.
    apply DecimalPos.Unsigned.to_uint_nonnil. }
  pose proof (NilZero.usu _ (Hnn m)) as Hm.
  pose proof (NilZero.usu _ (Hnn n)) as Hn.
  rewrite H, Hn in Hm. injection Hm as Hm.
  symmetry. now apply DecimalN.Unsigned.to_uint_inj.
Qed.

(** The failures are told apart by their messages, and a failed fetch by
    the status in its message. *)
Lemma message_of_injective (k k' : FailureKind) :
  message_of k = message_of k' -> k = k'.
Proof.
  destruct k, k'; simpl; intro H; try reflexivity; try discriminate H.
  injection H as H. f_equal. now apply of_number_injective.
Qed.

Example server_error_is_FetchFailed :
  fst (fetchArticleAction (world_of (Responds 500 [])) "https://example.com")
  = Failure "Failed to fetch article: HTTP Status 500".
Proof. reflexivity. Qed.

(** C6: when the text collected from the page is shorter than 50
    characters, the action fails with InsufficientContent; it is not a
    success of any kind. *)
Theorem short_text_is_insufficient (w : World) (url : string)
    (document : Document) :
  URL_parses (hierarchical w) url = true ->
  network w url = Responds 200 document ->
  (String.length (articleText document) < 50)%nat ->
  fetchArticleAction w url
  = (Failure (message_of InsufficientContent), [HttpGet url])
  /\ isSuccess (fst (fetchArticleAction w url)) = false.
Proof.
  intros Hurl Hnet Hshort.
  assert (E : fetchArticleAction w url
              = (Failure (message_of InsufficientContent), [HttpGet url])).
  { unfold fetchArticleAction, axios_get. rewrite Hurl, Hnet.
    change (validateStatus 200) with true.
    change (200 =? 200)%N with true. cbn [negb].
    apply Nat.ltb_lt in Hshort. rewrite Hshort. reflexivity. }
  rewrite E. split; reflexivity.
Qed.

(** A success carries the collected text as line 96 normalises it, and
    that text had at least 50 characters when it was tested. *)
Lemma success_carries_collected_text (w : World) (url m : string)
    (data : ArticleData) :
  fst (fetchArticleAction w url) = Success m data ->
  exists document,
    network w url = Responds 200 document /\
    (50 <= String.length (articleText document))%nat /\
    data = mkArticle url (trim (collapse_newlines (articleText document))).
Proof.
  unfold fetchArticleAction, axios_get.
  destruct (URL_parses (hierarchical w) url); cbn [negb fst];
    [|discriminate].
  destruct (network w url) as [status document| |]; cbn [fst];
    try discriminate.
  - destruct (validateStatus status).
    + destruct (N.eqb_spec status 200) as [->|]; cbn [negb fst];
        [|discriminate].
      destruct (Nat.ltb_spec (String.length (articleText document)) 50)
        as [|Hlong]; cbn [fst]; [discriminate|].
      intro Hs. injection Hs as _ <-. now exists document.
    + destruct (on_error _) as [r e] eqn:E. cbn [fst]. intros ->.
      unfold on_error in E. cbn [response] in E.
      repeat match type of E with
             | (if ?c then _ else _) = _ => destruct c
             end; discriminate E.
Qed.

(** The length is tested before the normalisation, which may shorten the
    text: a paragraph of two letters around fifty line feeds passes the
    test and is reported as three characters. *)
Example normalisation_follows_the_check :
  let par := "a" ++ many_line_feeds 50 ++ "b" in
  fst (fetchArticleAction
         (world_of (Responds 200 [Element "body" [Element "p" [Text par]]]))
         "https://example.com/a")
  = Success "Article fetched successfully"
      (mkArticle "https://example.com/a" ("a" ++ line_feed ++ "b")).
Proof. vm_compute. reflexivity. Qed.

Lemma short_text_is_insufficient_witness :
  let document :=
    [Element "html" [Element "body" [Element "p" [Text "Too short."]]]] in
  let w := world_of (Responds 200 document) in
  fetchArticleAction w "https://example.com/a"
  = (Failure (message_of InsufficientContent),
     [HttpGet "https://example.com/a"])
  /\ isSuccess (fst (fetchArticleAction w "https://example.com/a")) = false.
Proof.
  intros document w.
  apply (short_text_is_insufficient w "https://example.com/a" document).
  - reflexivity.
  - reflexivity.
  - vm_compute. lia.
Defined.

(** C3: the content root is chosen by the ordered fallback (the article
    containers if the reduced document has one, else the main containers,
    else the body), and the text collected is the newline-join of the
    non-empty trimmed texts of the heading and paragraph elements that
    lie within that root, in document order. *)
Theorem extraction_follows_document_order (document : Document) :
  let d := remove_all unwanted document in
  map snd (articleContent d) = flat_map (named [content_root d]) d
  /\ articleText document
     = join line_feed
         (filter (fun t => (0 <? String.length t)%nat)
            (map (fun n => trim (textContent n))
               (flat_map (within (content_root d) content_tags false) d))).
Proof.
  cbv zeta. unfold articleText, articleContent, content_root.
  rewrite !select_present.
  set (d := remove_all unwanted document).
  assert (Htext : forall root,
    map (fun element : Located => trim (textContent (snd element)))
        (find d content_tags (select d [root]))
    = map (fun n => trim (textContent n))
          (flat_map (within root content_tags false) d)).
  { intro root. rewrite <- (find_select_within d root content_tags), map_map.
    reflexivity. }
  destruct (existsb (occurs "article") d);
    [|destruct (existsb (occurs "main") d)];
    (split; [apply select_named | now rewrite Htext]).
Qed.

Example example_page_text :
  fst (fetchArticleAction (world_of (Responds 200 (example_page 5)))
         "https://example.com/a")
  = Success "Article fetched successfully"
      (mkArticle "https://example.com/a"
         (join line_feed
            ["Title"; "Word"; "Title"; "Word"; "Title"; "Word"; "Title";
             "Word"; "Title"; "Word"])).
Proof. vm_compute. reflexivity. Qed.

Example nested_roots_are_read_once :
  articleText
    [Element "body"
       [Element "main" [Element "p" [Text "outside the article"]];
        Element "article"
          [Element "h2" [Text " Heading "];
           Element "article" [Element "p" [Text "inner"]];
           Element "div" [Element "p" [Text ""]; Element "p" [Text "last"]]]]]
  = join line_feed ["Heading"; "inner"; "last"].
Proof. vm_compute. reflexivity. Qed.

Example mailto_run :
  URL_parses (fun _ _ => false) "mailto:a" = true /\
  fetchArticleAction (world_of NotSent) "mailto:a"
  = (Failure "An unexpected error occurred while fetching the article.",
     [HttpGet "mailto:a"; ConsoleError "Error fetching article:"]).
Proof. split; reflexivity. Qed.

(** C8, as the claim states it, fails: [new URL] accepts strings that have
    a scheme and no host.  "mailto:a" passes the validation, the request is
    issued, and the failure reported is not InvalidInput. *)
Lemma scheme_without_host_passes_validation :
  ~ (forall (w : World) (url : string),
        has_scheme_and_host url = false ->
        fetchArticleAction w url = (Failure (message_of InvalidInput), [])).
Proof.
  intro H. specialize (H (world_of NotSent) "mailto:a" eq_refl).
  discriminate H.
Qed.

Lemma scheme_state_needs_colon (s : string) :
  has_colon s = false -> scheme_state s = None.
Proof.
  induction s as [|c s IH]; simpl; [reflexivity|].
  intro H. apply orb_false_elim in H as [Hc Hs]. rewrite Hc, (IH Hs).
  now destruct (_ || _).
Qed.

Lemma strip_start_colon (s : string) :
  has_colon s = false -> has_colon (strip_start s) = false.
Proof.
  induction s as [|c s IH]; simpl; [reflexivity|].
  intro H. destruct (is_c0_or_space c); [|exact H].
  apply orb_false_elim in H as [_ Hs]. now apply IH.
Qed.

Lemma strip_end_colon (s : string) :
  has_colon s = false -> has_colon (strip_end s) = false.
Proof.
  induction s as [|c s IH]; simpl; [reflexivity|].
  intro H. apply orb_false_elim in H as [Hc Hs]. specialize (IH Hs).
  destruct (strip_end s) as [|d t].
  - destruct (is_c0_or_space c); simpl; [reflexivity | now rewrite Hc].
  - cbn [has_colon] in *. now rewrite Hc.
Qed.

Lemma drop_tab_newline_colon (s : string) :
  has_colon s = false -> has_colon (drop_tab_newline s) = false.
Proof.
  induction s as [|c s IH]; simpl; [reflexivity|].
  intro H. apply orb_false_elim in H as [Hc Hs].
  destruct (is_tab_or_newline c); simpl; [now apply IH|].
  now rewrite Hc, IH.
Qed.

(** A string without a colon has no scheme, and [new URL] rejects it. *)
Lemma no_colon_no_URL (h : string -> string -> bool) (url : string) :
  has_colon url = false -> URL_parses h url = false.
Proof.
  intro H. unfold URL_parses, scheme_start_state.
  apply strip_start_colon, strip_end_colon, drop_tab_newline_colon in H.
  destruct (drop_tab_newline _) as [|c t]; [reflexivity|].
  rewrite (scheme_state_needs_colon _ H). now destruct (is_alpha c).
Qed.

(** C8 (amended): for every input string that [new URL] rejects, the
    action fails with InvalidInput and no request is made; this is the
    case of every string that has no scheme, and so of every string
    without a colon. *)
Theorem rejected_url_is_InvalidInput (w : World) (url : string) :
  (URL_parses (hierarchical w) url = false ->
   fetchArticleAction w url = (Failure (message_of InvalidInput), []))
  /\ (has_colon url = false ->
      fetchArticleAction w url = (Failure (message_of InvalidInput), [])).
Proof.
  assert (H : URL_parses (hierarchical w) url = false ->
              fetchArticleAction w url
              = (Failure (message_of InvalidInput), [])).
  { intro E. unfold fetchArticleAction. rewrite E. reflexivity. }
  split; [exact H|].
  intro Hc. apply H. now apply no_colon_no_URL.
Qed.

Lemma rejected_url_is_InvalidInput_witness :
  has_colon "example.com/article" = false /\
  fetchArticleAction (world_of NoResponse) "example.com/article"
  = (Failure (message_of InvalidInput), []).
Proof.
  split; [reflexivity|].
  apply (proj2 (rejected_url_is_InvalidInput (world_of NoResponse)
                  "example.com/article")).
  reflexivity.
Defined.

End FetchArticleSpec.

(** ** More about the word wrap *)

Module UtilsMore.
Import JsString JsStringFacts Utils UtilsSpec.
Local Open Scope Q_scope.

Lemma fold_glue_append (sep : ascii) (ws : list string) (a b : string) :
  fold_left (glue sep) ws (a ++ b) = a ++ fold_left (glue sep) ws b.
Proof.
  revert b. induction ws as [|w ws IH]; intro b; [reflexivity|].
  cbn [fold_left]. unfold glue at 2 4. rewrite append_assoc. apply IH.
Qed.

Lemma join_cons (sep w : string) (l : list string) :
  l <> [] -> join sep (w :: l) = w ++ sep ++ join sep l.
Proof. destruct l; [now intros [] | reflexivity]. Qed.

Lemma wrap_loop_join (measure : string -> Q) (maxWidth x0 : Q)
    (words : list string) (cur : string) :
  join " " (map text (wrap_loop measure maxWidth x0 cur words))
  = fold_left (glue " "%char) words cur.
Proof.
  revert cur. induction words as [|w rest IH]; intro cur; [reflexivity|].
  rewrite wrap_loop_cons. cbn [fold_left].
  destruct (Qle_bool _ _); [apply IH|].
  cbn [map text]. rewrite join_cons.
  - rewrite IH. change (glue " "%char cur w) with (cur ++ (" " ++ w)).
    now rewrite !fold_glue_append.
  - intro E. apply map_eq_nil in E.
    now apply (wrap_loop_nonempty measure maxWidth x0 rest w).
Qed.

(** Round trip: the texts of the lines [wrapText] returns, joined by
    single spaces, are the text that was wrapped, character for
    character; the breaks replace a space each and nothing else. *)
Theorem wrapText_join (measure : string -> Q) (str : string)
    (maxWidth x0 : Q) :
  join " " (map text (wrapText measure str maxWidth x0)) = str.
Proof.
  unfold wrapText. pose proof (fold_glue_split " "%char str "") as H.
  destruct (split " "%char str) as [word0 words]. cbn [fst snd append] in H.
  now rewrite wrap_loop_join.
Qed.

Lemma first_word_glue (sep : ascii) (a b : string) :
  fst (split sep (glue sep a b)) = fst (split sep a).
Proof.
  pose proof (split_list_app sep a b) as H. unfold split_list in H.
  cbn [app] in H. now injection H.
Qed.

Lemma wrap_loop_first_word (measure : string -> Q) (maxWidth x0 : Q)
    (words : list string) (cur : string) (l : Line) (ls : list Line) :
  wrap_loop measure maxWidth x0 cur words = l :: ls ->
  fst (split " "%char (text l)) = fst (split " "%char cur).
Proof.
  revert cur. induction words as [|w rest IH]; intros cur.
  - simpl. intro H. now injection H as <- _.
  - rewrite wrap_loop_cons. destruct (Qle_bool _ _).
    + intro H. rewrite (IH _ H). apply first_word_glue.
    + intro H. now injection H as <- _.
Qed.

Lemma wrap_loop_breaks (measure : string -> Q) (maxWidth x0 : Q)
    (words : list string) (cur : string) (pre post : list Line) (a b : Line) :
  Forall (sep_free " "%char) words ->
  wrap_loop measure maxWidth x0 cur words = (pre ++ a :: b :: post)%list ->
  maxWidth < measure (text a ++ " " ++ fst (split " "%char (text b))).
Proof.
  revert cur pre. induction words as [|w rest IH]; intros cur pre Hws H.
  - simpl in H. destruct pre as [|p [|q pre]]; discriminate H.
  - inversion Hws as [|? ? Hw Hrest]; subst. rewrite wrap_loop_cons in H.
    destruct (Qle_bool (measure (glue " "%char cur w)) maxWidth) eqn:E.
    + exact (IH _ pre Hrest H).
    + destruct pre as [|p pre].
      * cbn [app] in H. injection H as <- H. cbn [text].
        rewrite (wrap_loop_first_word _ _ _ _ _ _ _ H).
        unfold sep_free in Hw. rewrite Hw. cbn [fst].
        apply Qnot_le_lt. intro A. apply Qle_bool_iff in A.
        change (Qle_bool (measure (glue " "%char cur w)) maxWidth = true)
          in A.
        congruence.
      * cbn [app] in H. injection H as _ H. exact (IH _ pre Hrest H).
Qed.

(** The wrapping is greedy: wherever a line is followed by another, the
    line extended by a space and the first word of the next one measures
    more than [maxWidth].  No break is made that the width did not
    force. *)
Theorem wrapText_breaks_are_forced (measure : string -> Q) (str : string)
    (maxWidth x0 : Q) (pre post : list Line) (a b : Line) :
  wrapText measure str maxWidth x0 = (pre ++ a :: b :: post)%list ->
  maxWidth < measure (text a ++ " " ++ fst (split " "%char (text b))).
Proof.
  unfold wrapText. pose proof (split_pieces_free " "%char str) as Hfree.
  unfold split_list in Hfree.
  destruct (split " "%char str) as [word0 words]. cbn [fst snd] in Hfree.
  inversion Hfree; subst. now apply wrap_loop_breaks.
Qed.

Lemma wrapText_breaks_are_forced_witness :
  11 < count_chars ("the quick" ++ " "
                    ++ fst (split " "%char "brown fox")).
Proof.
  exact (wrapText_breaks_are_forced count_chars "the quick brown fox jumps"
           11 0 [] [mkLine "jumps" 0] (mkLine "the quick" 0)
           (mkLine "brown fox" 0) eq_refl).
Defined.

Lemma wrap_loop_length (measure : string -> Q) (maxWidth x0 : Q)
    (words : list string) (cur : string) :
  (1 <= List.length (wrap_loop measure maxWidth x0 cur words)
     <= S (List.length words))%nat.
Proof.
  revert cur. induction words as [|w rest IH]; intro cur; [simpl; lia|].
  rewrite wrap_loop_cons. destruct (Qle_bool _ _).
  - specialize (IH (glue " "%char cur w)). simpl. lia.
  - specialize (IH w). simpl. lia.
Qed.

(** [wrapText] returns at least one line and at most as many lines as
    the text has words (the pieces between spaces). *)
Theorem wrapText_line_count (measure : string -> Q) (str : string)
    (maxWidth x0 : Q) :
  (1 <= List.length (wrapText measure str maxWidth x0)
     <= List.length (words_of str))%nat.
Proof.
  unfold wrapText, words_of, split_list.
  destruct (split " "%char str) as [word0 words]. cbn [fst snd List.length].
  apply wrap_loop_length.
Qed.

End UtilsMore.

(** ** More about the extraction *)

Module FetchArticleMore.
Import JsString JsStringFacts Types Cheerio CheerioFacts Url FetchArticle TextShape.

Lemma trimStart_no_lead (s : string) : no_lead (trimStart s).
Proof.
  induction s as [|c s IH]; simpl; [exact I|].
  destruct (is_white_space c) eqn:E; [exact IH | exact E].
Qed.

Lemma no_lead_trimStart (s : string) : no_lead s -> trimStart s = s.
Proof. destruct s as [|c s]; simpl; [reflexivity|]. now intros ->. Qed.

Lemma trimEnd_no_lead (s : string) : no_lead s -> no_lead (trimEnd s).
Proof.
  destruct s as [|c s]; simpl; [exact id|]. intro H.
  destruct (trimEnd s); [rewrite H|]; exact H.
Qed.

Lemma trimEnd_cons (c : ascii) (s : string) :
  trimEnd (String c s)
  = match trimEnd s with
    | EmptyString => if is_white_space c then EmptyString
                     else String c EmptyString
    | t => String c t
    end.
Proof. reflexivity. Qed.

Lemma trimEnd_idempotent (s : string) : trimEnd (trimEnd s) = trimEnd s.
Proof.
  induction s as [|c s IH]; [reflexivity|]. rewrite trimEnd_cons.
  destruct (trimEnd s) as [|d t] eqn:E.
  - destruct (is_white_space c) eqn:W; [reflexivity|].
    rewrite trimEnd_cons. cbn [trimEnd]. now rewrite W.
  - rewrite trimEnd_cons, IH. reflexivity.
Qed.

Lemma trim_idempotent (s : string) : trim (trim s) = trim s.
Proof.
  unfold trim.
  rewrite (no_lead_trimStart (trimEnd (trimStart s))).
  - apply trimEnd_idempotent.
  - apply trimEnd_no_lead, trimStart_no_lead.
Qed.

Lemma trimEnd_prefix (s : string) : exists q, s = trimEnd s ++ q.
Proof.
  induction s as [|c s [q IH]]; [now exists ""|]. simpl.
  destruct (trimEnd s) as [|d t].
  - destruct (is_white_space c).
    + now exists (String c s).
    + exists s. reflexivity.
  - exists q. simpl. now rewrite IH at 1.
Qed.

Lemma double_lf_two (c d : ascii) (t : string) :
  double_lf (String c (String d t))
  = (Ascii.eqb c "010"%char && Ascii.eqb d "010"%char)
    || double_lf (String d t).
Proof. reflexivity. Qed.

Lemma double_lf_cons (c : ascii) (s : string) :
  double_lf s = true -> double_lf (String c s) = true.
Proof.
  destruct s as [|d t]; [discriminate|]. intro H.
  rewrite double_lf_two, H. apply orb_true_r.
Qed.

Lemma double_lf_app_r (p q : string) :
  double_lf p = true -> double_lf (p ++ q) = true.
Proof.
  induction p as [|c p IH]; [discriminate|].
  destruct p as [|d p']; [discriminate|].
  change (String c (String d p') ++ q)
    with (String c (String d (p' ++ q))).
  rewrite !double_lf_two.
  intro H. apply orb_prop in H as [H|H].
  - now rewrite H.
  - change (String d (p' ++ q)) with (String d p' ++ q).
    rewrite (IH H). apply orb_true_r.
Qed.

Lemma double_lf_app (a b : string) :
  double_lf (a ++ line_feed ++ line_feed ++ b) = true.
Proof.
  induction a as [|c a IH]; [reflexivity|].
  cbn [append]. now apply double_lf_cons.
Qed.

Lemma double_lf_trimStart (s : string) :
  double_lf (trimStart s) = true -> double_lf s = true.
Proof.
  induction s as [|c s IH]; simpl; [exact id|].
  destruct (is_white_space c); [|exact id].
  intro H. apply double_lf_cons. now apply IH.
Qed.

Lemma double_lf_trimEnd (s : string) :
  double_lf (trimEnd s) = true -> double_lf s = true.
Proof.
  intro H. destruct (trimEnd_prefix s) as [q Hq]. rewrite Hq.
  now apply double_lf_app_r.
Qed.

Lemma collapse_cons (c : ascii) (s : string) :
  collapse_newlines (String c s)
  = if Ascii.eqb c "010"%char then
      match s with
      | String c' _ =>
          if Ascii.eqb c' "010"%char then collapse_newlines s
          else String c (collapse_newlines s)
      | EmptyString => String c EmptyString
      end
    else String c (collapse_newlines s).
Proof. reflexivity. Qed.

Lemma collapse_head (s : string) (c : ascii) :
  exists t, collapse_newlines (String c s) = String c t.
Proof.
  revert c. induction s as [|d s IH]; intro c; rewrite collapse_cons.
  - destruct (Ascii.eqb c "010"%char); now eexists.
  - destruct (Ascii.eqb c "010"%char) eqn:Ec; [|now eexists].
    destruct (Ascii.eqb d "010"%char) eqn:Ed; [|now eexists].
    apply Ascii.eqb_eq in Ec, Ed. subst. apply IH.
Qed.

Lemma collapse_no_double_lf (s : string) :
  double_lf (collapse_newlines s) = false.
Proof.
  induction s as [|c s IH]; [reflexivity|].
  rewrite collapse_cons. destruct s as [|d s].
  - now destruct (Ascii.eqb c "010"%char).
  - destruct (collapse_head s d) as [t Ht].
    destruct (Ascii.eqb c "010"%char) eqn:Ec.
    + destruct (Ascii.eqb d "010"%char) eqn:Ed; [exact IH|].
      rewrite Ht in *. now rewrite double_lf_two, IH, Ed, andb_false_r.
    + rewrite Ht in *. now rewrite double_lf_two, IH, Ec.
Qed.

(** A success of [fetchArticleAction] carries the URL it was called
    with and a text in normal form: no two line feeds in a row anywhere
    in it, and no white space at either end. *)
Theorem success_text_is_normalised (w : World) (u m : string)
    (data : ArticleData) :
  fst (fetchArticleAction w u) = Success m data ->
  url data = u
  /\ (forall a b, text data <> a ++ line_feed ++ line_feed ++ b)
  /\ trim (text data) = text data.
Proof.
  unfold fetchArticleAction, axios_get.
  destruct (URL_parses (hierarchical w) u); cbn [negb fst]; [|discriminate].
  destruct (network w u) as [status document| |]; cbn [fst];
    try discriminate.
  destruct (validateStatus status).
  - destruct (negb (status =? 200)%N); cbn [fst]; [discriminate|].
    destruct (String.length (articleText document) <? 50)%nat; cbn [fst];
      [discriminate|].
    intro H. injection H as _ <-. cbn [url text].
    split; [reflexivity|]. split; [|apply trim_idempotent].
    intros a b E.
    assert (D : double_lf (trim (collapse_newlines (articleText document)))
                = true) by (rewrite E; apply double_lf_app).
    unfold trim in D. apply double_lf_trimEnd, double_lf_trimStart in D.
    rewrite collapse_no_double_lf in D. discriminate.
  - destruct (on_error _) as [r e] eqn:E. cbn [fst]. intros ->.
    unfold on_error in E. cbn [response] in E.
    repeat match type of E with
           | (if ?c then _ else _) = _ => destruct c
           end; discriminate E.
Qed.

Lemma success_text_is_normalised_witness :
  let data :=
    mkArticle "https://example.com/a"
              (trim (collapse_newlines (articleText (example_page 5)))) in
  url data = "https://example.com/a"
  /\ (forall a b, text data <> a ++ line_feed ++ line_feed ++ b)
  /\ trim (text data) = text data.
Proof.
  intro data.
  apply (success_text_is_normalised
           (world_of (Responds 200 (example_page 5)))
           "https://example.com/a" "Article fetched successfully" data).
  vm_compute. reflexivity.
Defined.

(** The extraction never retries: a string the URL parser rejects
    causes no effect at all, and any other causes exactly one request,
    to the URL given, followed by nothing but the log of the unexpected
    error. *)
Theorem at_most_one_request (w : World) (u : string) :
  (URL_parses (hierarchical w) u = false ->
   snd (fetchArticleAction w u) = [])
  /\ (URL_parses (hierarchical w) u = true ->
      exists rest,
        snd (fetchArticleAction w u) = HttpGet u :: rest /\
        forall e, In e rest -> e = ConsoleError "Error fetching article:").
Proof.
  unfold fetchArticleAction, axios_get. split; intros ->; cbn [negb snd].
  - reflexivity.
  - destruct (network w u) as [status document| |].
    + destruct (validateStatus status).
      * destruct (negb (status =? 200)%N); [now exists []|].
        destruct (String.length (articleText document) <? 50)%nat;
          now exists [].
      * unfold on_error. cbn [response].
        destruct (_ || _); [now exists []|].
        destruct (status =? 404)%N; now exists [].
    + now exists [].
    + eexists. split; [reflexivity|]. intros e [<-|[]]. reflexivity.
Qed.

Lemma flat_map_flat_map {A B C : Type} (f : B -> list C) (g : A -> list B)
    (l : list A) :
  flat_map f (flat_map g l) = flat_map (fun a => flat_map f (g a)) l.
Proof.
  induction l as [|a l IH]; simpl; [reflexivity|].
  now rewrite flat_map_app, IH.
Qed.

Lemma remove_idempotent (names : list string) (n : Node) :
  flat_map (remove names) (remove names n) = remove names n.
Proof.
  induction n as [t|t|name kids IH] using Node_induction; try reflexivity.
  cbn [remove]. destruct (existsb (String.eqb name) names) eqn:E;
    [reflexivity|].
  cbn [flat_map remove]. rewrite E, app_nil_r. do 2 f_equal.
  rewrite flat_map_flat_map.
  induction IH as [|k kids Hk _ IHk]; [reflexivity|].
  cbn [flat_map]. now rewrite Hk, IHk.
Qed.

Lemma remove_all_idempotent (names : list string) (doc : Document) :
  remove_all names (remove_all names doc) = remove_all names doc.
Proof.
  unfold remove_all. rewrite flat_map_flat_map.
  induction doc as [|n doc IH]; [reflexivity|].
  cbn [flat_map]. now rewrite remove_idempotent, IH.
Qed.

(** The reduction of line 67 ([$(...).remove()]) leaves no element of
    any of the removed kinds anywhere in the document, does nothing when
    applied a second time, and so the text collected from a reduced
    document is the text collected from the document. *)
Theorem reduction_is_complete_and_idempotent (document : Document) :
  (forall name, In name unwanted ->
     existsb (occurs name) (remove_all unwanted document) = false)
  /\ remove_all unwanted (remove_all unwanted document)
     = remove_all unwanted document
  /\ articleText (remove_all unwanted document) = articleText document.
Proof.
  split; [|split].
  - intros name H. now apply remove_all_clears.
  - apply remove_all_idempotent.
  - unfold articleText. now rewrite remove_all_idempotent.
Qed.

Lemma within_none (root : string) (names : list string) (n : Node)
    (inside : bool) :
  (forall name, In name names -> occurs name n = false) ->
  within root names inside n = [].
Proof.
  revert inside.
  induction n as [t|t|name kids IH] using Node_induction; intros inside H;
    try reflexivity.
  cbn [within].
  assert (E : existsb (String.eqb name) names = false).
  { apply not_true_is_false. intro A.
    apply existsb_exists in A as (x & Hx & Ex). apply String.eqb_eq in Ex.
    subst x. specialize (H name Hx). cbn [occurs] in H.
    now rewrite String.eqb_refl in H. }
  rewrite E, andb_false_r. cbn [app].
  assert (Hk : forall k, In k kids ->
                 forall name, In name names -> occurs name k = false).
  { intros k Hin name' Hn. specialize (H name' Hn). cbn [occurs] in H.
    apply orb_false_elim in H as [_ H].
    apply not_true_is_false. intro A.
    assert (existsb (occurs name') kids = true); [|congruence].
    apply existsb_exists. now exists k. }
  clear H. induction IH as [|k kids Hkk _ IHk]; [reflexivity|].
  cbn [flat_map]. rewrite Hkk, IHk; [reflexivity| |].
  - intros; apply (Hk k0); [now right | assumption].
  - apply Hk. now left.
Qed.

Lemma remove_keeps_absent (names : list string) (name : string) (n : Node) :
  occurs name n = false -> existsb (occurs name) (remove names n) = false.
Proof.
  induction n as [t|t|name' kids IH] using Node_induction; try reflexivity.
  cbn [occurs remove]. intro H. apply orb_false_elim in H as [H1 H2].
  destruct (existsb (String.eqb name') names); [reflexivity|].
  cbn [existsb occurs]. rewrite H1, orb_false_r. cbn [orb].
  rewrite existsb_flat_map.
  induction IH as [|k kids Hk _ IHk]; [reflexivity|].
  cbn [existsb] in *. apply orb_false_elim in H2 as [Ha Hb].
  now rewrite (Hk Ha), (IHk Hb).
Qed.

Lemma articleText_without_content (document : Document) :
  (forall name, In name content_tags ->
     existsb (occurs name) document = false) ->
  articleText document = "".
Proof.
  intro H. unfold articleText.
  set (d := remove_all unwanted document).
  assert (Hd : forall root, find d content_tags (select d [root]) = []).
  { intro root. apply (map_eq_nil snd).
    rewrite (find_select_within d root content_tags).
    assert (Hn : forall n, In n d ->
               forall name, In name content_tags -> occurs name n = false).
    { intros n Hin name Hname. apply not_true_is_false. intro A.
      assert (B : existsb (occurs name) d = true)
        by (apply existsb_exists; now exists n).
      unfold d, remove_all in B. rewrite existsb_flat_map in B.
      apply existsb_exists in B as (k & Hk & B).
      rewrite remove_keeps_absent in B; [discriminate|].
      apply not_true_is_false. intro C.
      assert (existsb (occurs name) document = true); [|now rewrite H in *].
      apply existsb_exists. now exists k. }
    induction d as [|n d' IHd]; [reflexivity|].
    cbn [flat_map]. rewrite within_none, IHd; [reflexivity| |].
    - intros; apply (Hn n0); [now right | assumption].
    - apply Hn. now left. }
  unfold articleContent.
  destruct (0 <? _)%nat; [|destruct (0 <? _)%nat]; now rewrite Hd.
Qed.

(** A page answered with status 200 that has no paragraph and no
    heading element anywhere yields the empty text and is refused as
    insufficient content, after the one request. *)
Theorem page_without_content_elements (w : World) (u : string)
    (document : Document) :
  (forall name, In name content_tags ->
     existsb (occurs name) document = false) ->
  URL_parses (hierarchical w) u = true ->
  network w u = Responds 200 document ->
  articleText document = ""
  /\ fetchArticleAction w u
     = (Failure (message_of InsufficientContent), [HttpGet u]).
Proof.
  intros H Hurl Hnet. pose proof (articleText_without_content document H) as E.
  split; [exact E|].
  unfold fetchArticleAction, axios_get. rewrite Hurl, Hnet.
  change (validateStatus 200) with true. change (200 =? 200)%N with true.
  cbn [negb]. rewrite E. reflexivity.
Qed.

Lemma page_without_content_elements_witness :
  let document :=
    [Element "html"
       [Element "body" [Element "div" [Text "No paragraph here."]]]] in
  articleText document = ""
  /\ fetchArticleAction (world_of (Responds 200 document))
                        "https://example.com/a"
     = (Failure (message_of InsufficientContent),
        [HttpGet "https://example.com/a"]).
Proof.
  intro document.
  apply (page_without_content_elements (world_of (Responds 200 document))
           "https://example.com/a" document).
  - intros name H. simpl in H.
    repeat (destruct H as [<-|H]; [reflexivity|]). destruct H.
  - reflexivity.
  - reflexivity.
Defined.

End FetchArticleMore.

(** ** More about the page rendering *)

Module GeneratePngMore.
Import JsString JsStringFacts Utils UtilsSpec Types GeneratePng GeneratePngSpec Layout.
Local Open Scope Q_scope.

Lemma lineHeight_value : lineHeight == 50.4.
Proof. reflexivity. Qed.

Lemma draw_lines_cursor_exact (ctx : Context2D) (y : Q) (ls : list Line) :
  snd (draw_lines ctx y ls)
  == y + lineHeight * inject_Z (Z.of_nat (List.length ls)).
Proof.
  revert ctx y. induction ls as [|l ls IH]; intros ctx y.
  - simpl. ring.
  - cbn [draw_lines List.length]. rewrite IH, Nat2Z.inj_succ.
    unfold Z.succ. rewrite inject_Z_plus. ring.
Qed.

Lemma draw_lines_state (ctx : Context2D) (y : Q) (ls : list Line) :
  fillStyle (fst (draw_lines ctx y ls)) = fillStyle ctx /\
  font (fst (draw_lines ctx y ls)) = font ctx /\
  textAlign (fst (draw_lines ctx y ls)) = textAlign ctx.
Proof.
  revert ctx y. induction ls as [|l ls IH]; intros ctx y; [now repeat split|].
  cbn [draw_lines].
  destruct (IH (fillText (text l) (x l) y ctx) (y + lineHeight))
    as (A & B & C).
  rewrite A, B, C. now repeat split.
Qed.

Lemma draw_bullets_state (env : Env) (points : list string)
    (ctx : Context2D) (y : Q) :
  fillStyle (fst (draw_bullets env ctx y points)) = fillStyle ctx /\
  font (fst (draw_bullets env ctx y points)) = font ctx /\
  textAlign (fst (draw_bullets env ctx y points)) = textAlign ctx.
Proof.
  revert ctx y. induction points as [|p rest IH]; intros ctx y;
    [now repeat split|].
  rewrite draw_bullets_cons. cbv zeta.
  match goal with |- context [draw_bullets env ?c ?y' rest] =>
    destruct (IH c y') as (A & B & C); rewrite A, B, C end.
  match goal with |- context [draw_lines ?c ?y' ?ls] =>
    destruct (draw_lines_state c y' ls) as (A' & B' & C');
    rewrite A', B', C' end.
  now repeat split.
Qed.

(** The exact sum the cursor approximates: one line height for every
    line a bullet wraps to, and half a line height more for every
    bullet. *)
Lemma draw_bullets_cursor_exact (env : Env) (points : list string)
    (ctx : Context2D) (y : Q) :
  snd (draw_bullets env ctx y points)
  == y + lineHeight * inject_Z (Z.of_nat (total_lines env (font ctx) points))
       + lineHeight * 0.5 * inject_Z (Z.of_nat (List.length points)).
Proof.
  revert ctx y. induction points as [|p rest IH]; intros ctx y.
  - simpl. ring.
  - rewrite draw_bullets_cons. cbv zeta. rewrite IH.
    match goal with |- context [draw_lines ?c ?y' ?ls] =>
      destruct (draw_lines_state c y' ls) as (_ & B & _); rewrite B;
      rewrite (draw_lines_cursor_exact c y' ls) end.
    cbn [font fillText].
    change (measureText env (fillText bulletSymbol margin y ctx))
      with (metrics env (font ctx)).
    cbn [total_lines List.length].
    rewrite Nat2Z.inj_add, Nat2Z.inj_succ. unfold Z.succ.
    rewrite !inject_Z_plus. ring.
Qed.


Lemma falsy_true (s : string) : falsy s = true -> s = "".
Proof. destruct s; [reflexivity | discriminate]. Qed.

Lemma falsy_spec (s : string) : falsy s = false <-> s <> "".
Proof.
  split; [intros H -> ; discriminate | apply falsy_false].
Qed.

(** A success comes from [render] on the row of the session's user. *)
Lemma generatePng_success_inv (env : Env)
    (summaryId headline subheadline m : string) (img : Png) :
  fst (generatePngAction env summaryId headline subheadline) = Success m img ->
  exists user row,
    auth env = Some user /\ user <> "" /\ summaryId <> "" /\
    headline <> "" /\ subheadline <> "" /\
    findFirst env summaryId = Row row /\ userId row = user /\
    (canvas_first env = true \/ canvas_second env = true) /\
    fst (render env (createCanvas width height) row headline subheadline)
    = Success m img.
Proof.
  unfold generatePngAction.
  destruct (auth env) as [user|]; [|discriminate].
  destruct (falsy user) eqn:Fu; [discriminate|].
  destruct (falsy summaryId) eqn:Fi; [discriminate|].
  destruct (falsy headline) eqn:Fh; [discriminate|].
  destruct (falsy subheadline) eqn:Fs; [discriminate|]. cbn [orb].
  destruct (findFirst env summaryId) as [row| |]; try discriminate.
  destruct (String.eqb (userId row) user) eqn:Eo; cbn [negb];
    [|discriminate].
  apply String.eqb_eq in Eo. apply falsy_spec in Fu, Fi, Fh, Fs.
  destruct (canvas_first env) eqn:C1.
  - intro H. exists user, row.
    repeat (split; [assumption || reflexivity|]).
    split; [now left | exact H].
  - destruct (canvas_second env) eqn:C2; [|discriminate].
    destruct (render env _ row headline subheadline) as [r log] eqn:R.
    cbn [fst]. intro H. exists user, row.
    repeat (split; [assumption || reflexivity|]).
    split; [now right | now rewrite R].
Qed.

(** [generatePngAction] succeeds exactly when the user is signed in,
    the three parameters are non-empty, the summary exists and belongs
    to the user, and the surface can be allocated at the first or at
    the second attempt.  The summary text plays no part. *)
Theorem generatePng_succeeds_iff (env : Env)
    (summaryId headline subheadline : string) :
  isSuccess (fst (generatePngAction env summaryId headline subheadline))
  = true
  <-> exists user row,
        auth env = Some user /\ user <> "" /\ summaryId <> "" /\
        headline <> "" /\ subheadline <> "" /\
        findFirst env summaryId = Row row /\ userId row = user /\
        (canvas_first env = true \/ canvas_second env = true).
Proof.
  split.
  - destruct (fst (generatePngAction env summaryId headline subheadline))
      as [m img|m] eqn:E; [|discriminate].
    intros _. apply generatePng_success_inv in E
      as (user & row & A & B & C & D & F & G & H & I & _).
    exists user, row. repeat split; assumption.
  - intros (user & row & A & B & C & D & F & G & H & I).
    destruct (render_succeeds env (createCanvas width height) row
                headline subheadline) as [img [Hr _]].
    unfold generatePngAction. rewrite A.
    rewrite (falsy_false _ B), (falsy_false _ C), (falsy_false _ D),
      (falsy_false _ F). cbn [orb].
    rewrite G, H, String.eqb_refl. cbn [negb].
    destruct (canvas_first env).
    + now rewrite Hr.
    + destruct I as [I|I]; [discriminate|]. now rewrite I, Hr.
Qed.

Lemma fitting_point_one_line (measure : string -> Q) (str : string)
    (maxWidth x0 : Q) :
  (forall s t, measure s <= measure (s ++ t)) ->
  measure str <= maxWidth ->
  wrapText measure str maxWidth x0 = [mkLine str x0].
Proof.
  intros Hmono Hfit. unfold wrapText.
  pose proof (fold_glue_split " "%char str "") as Hglue.
  destruct (split " "%char str) as [word0 words]. cbn [fst snd append] in Hglue.
  rewrite <- Hglue in Hfit |- * at 1.
  now rewrite (wrap_loop_single measure maxWidth x0 words word0 Hmono Hfit).
Qed.

Lemma total_lines_fitting (env : Env) (f : string) (points : list string) :
  (forall s t, metrics env f s <= metrics env f (s ++ t)) ->
  Forall (fun p => metrics env f p <= maxTextWidth - margin) points ->
  total_lines env f points = List.length points.
Proof.
  intros Hmono. induction 1 as [|p rest Hp _ IH]; [reflexivity|].
  cbn [total_lines List.length].
  now rewrite (fitting_point_one_line _ p _ _ Hmono Hp), IH.
Qed.

(** The overflow test is never a close call.  Whatever the bullets, the
    exact sum the cursor approximates is [613.9 + 25.2 * k] for a whole
    number [k], and the threshold [height - margin] lies between the
    values for 112 and for 113: the sum is never within 11 pixels of it.
    The rounding of the additions would have to add up to 11 pixels to
    change the outcome of the test of line 162. *)
Theorem overflow_test_has_a_margin (env : Env) (points : list string)
    (ctx : Context2D) :
  snd (draw_bullets env ctx bulletStartY points) <= height - margin - 11
  \/ height - margin + 11 <= snd (draw_bullets env ctx bulletStartY points).
Proof.
  pose proof (draw_bullets_cursor_exact env points ctx bulletStartY) as Hc.
  set (L := total_lines env (font ctx) points) in *.
  set (B := List.length points) in *.
  assert (Hs : bulletStartY == 613.9) by reflexivity.
  assert (Hh : height - margin == 3448) by reflexivity.
  pose proof lineHeight_value as Hl.
  assert (Hk : inject_Z (Z.of_nat (2 * L + B))
               == 2 * inject_Z (Z.of_nat L) + inject_Z (Z.of_nat B)).
  { rewrite Nat2Z.inj_add, Nat2Z.inj_mul, inject_Z_plus, inject_Z_mult.
    reflexivity. }
  destruct (le_lt_dec (2 * L + B) 112) as [Hn|Hn].
  - left.
    assert (A : inject_Z (Z.of_nat (2 * L + B)) <= 112).
    { change 112 with (inject_Z 112). rewrite <- Zle_Qle. lia. }
    rewrite Hc, Hs, Hh, Hl. lra.
  - right.
    assert (A : 113 <= inject_Z (Z.of_nat (2 * L + B))).
    { change 113 with (inject_Z 113). rewrite <- Zle_Qle. lia. }
    rewrite Hc, Hs, Hh, Hl. lra.
Qed.

(** With a measure that never shrinks when text is appended, bullets
    that fit the text width take one line each, and the overflow warning
    is logged exactly when there are more than 37 of them.  The outcome
    is the same for every cursor within 11 pixels of the exact sum, so
    it does not depend on the rounding of the additions. *)
Theorem one_line_bullets_capacity (env : Env) (summary : SelectSummary)
    (headline subheadline : string) :
  (forall s t, metrics env (px_Inter bulletFontSize) s
               <= metrics env (px_Inter bulletFontSize) (s ++ t)) ->
  Forall (fun p => metrics env (px_Inter bulletFontSize) p
                   <= maxTextWidth - margin)
         (bulletPoints (summaryText summary)) ->
  snd (render env (createCanvas width height) summary headline
         subheadline)
  = (if (List.length (bulletPoints (summaryText summary)) <=? 37)%nat
     then []
     else [Warn "Text overflow detected; truncating content."])
  /\ (forall drift, - (11) <= drift -> drift <= 11 ->
        (height - margin <
         snd (draw_bullets env
                (draw_header (createCanvas width height) headline
                   subheadline)
                bulletStartY (bulletPoints (summaryText summary))) + drift
         <-> (37 < List.length (bulletPoints (summaryText summary)))%nat)).
Proof.
  intros Hmono Hfit.
  set (points := bulletPoints (summaryText summary)) in *.
  set (f := px_Inter bulletFontSize) in *.
  pose proof (draw_bullets_cursor_exact env points
                (draw_header (createCanvas width height) headline
                   subheadline) bulletStartY) as Hc.
  change (font (draw_header (createCanvas width height) headline
                  subheadline)) with f in Hc.
  rewrite (total_lines_fitting env f points Hmono Hfit) in Hc.
  assert (Hy : snd (draw_bullets env
                 (draw_header (createCanvas width height) headline
                    subheadline) bulletStartY points)
               == bulletStartY
                  + lineHeight * 1.5
                    * inject_Z (Z.of_nat (List.length points))).
  { rewrite Hc. ring. }
  assert (Hs : bulletStartY == 613.9) by reflexivity.
  assert (Hh : height - margin == 3448) by reflexivity.
  pose proof lineHeight_value as Hl.
  split.
  - unfold render. fold points.
    destruct (draw_bullets env _ bulletStartY points) as [ctx endY].
    cbn [fst snd] in *.
    destruct (Nat.leb_spec (List.length points) 37) as [Hn|Hn].
    + assert (A : inject_Z (Z.of_nat (List.length points)) <= 37).
      { change 37 with (inject_Z 37). rewrite <- Zle_Qle. lia. }
      assert (B : endY <= height - margin).
      { rewrite Hy, Hs, Hh, Hl. lra. }
      apply Qle_bool_iff in B. now rewrite B.
    + assert (A : 38 <= inject_Z (Z.of_nat (List.length points))).
      { change 38 with (inject_Z 38). rewrite <- Zle_Qle. lia. }
      assert (B : Qle_bool endY (height - margin) = false).
      { apply not_true_is_false. intro B. apply Qle_bool_iff in B.
        rewrite Hy, Hs, Hh, Hl in B. lra. }
      now rewrite B.
  - intros drift Hlo Hhi. rewrite Hy, Hs, Hh, Hl.
    destruct (le_lt_dec (List.length points) 37) as [Hn|Hn].
    + assert (A : inject_Z (Z.of_nat (List.length points)) <= 37).
      { change 37 with (inject_Z 37). rewrite <- Zle_Qle. lia. }
      split; [intro X; exfalso; lra | intro X; exfalso; lia].
    + assert (A : 38 <= inject_Z (Z.of_nat (List.length points))).
      { change 38 with (inject_Z 38). rewrite <- Zle_Qle. lia. }
      split; [intros _; exact Hn | intros _; lra].
Qed.

Lemma one_line_bullets_capacity_witness :
  let summary :=
    mkSummary "s1" "user_1" "https://example.com/a" "text"
              (many_bullets 38) in
  let env := fake_env "user_1" summary in
  snd (render env (createCanvas width height) summary "Headline"
         "Subheadline")
  = (if (List.length (bulletPoints (summaryText summary)) <=? 37)%nat
     then []
     else [Warn "Text overflow detected; truncating content."])
  /\ (forall drift, - (11) <= drift -> drift <= 11 ->
        (height - margin <
         snd (draw_bullets env
                (draw_header (createCanvas width height) "Headline"
                   "Subheadline")
                bulletStartY (bulletPoints (summaryText summary))) + drift
         <-> (37 < List.length (bulletPoints (summaryText summary)))%nat)).
Proof.
  intros summary env.
  apply (one_line_bullets_capacity env summary "Headline" "Subheadline").
  - intros s t. apply count_chars_monotone.
  - apply Forall_forall. intros p Hp. apply Qle_bool_iff.
    revert p Hp. apply forallb_forall. vm_compute. reflexivity.
Defined.

(** When every word of a bullet fits the text width, every line of the
    bullet, drawn from its indent, ends at or before the right margin
    less the indent: nothing is drawn beyond [width - margin - 30]. *)
Theorem bullet_text_within_right_margin (measure : string -> Q)
    (point : string) :
  Forall (fun w => measure w <= maxTextWidth - margin) (words_of point) ->
  Forall (fun l => x l + measure (text l) <= width - margin - 30)
         (wrapText measure point (maxTextWidth - margin) (margin + 30)).
Proof.
  intro H. unfold wrapText, words_of, split_list in *.
  destruct (split " "%char point) as [word0 words]. cbn [fst snd] in H.
  inversion H as [|? ? H0 Hws]; subst.
  pose proof (wrap_loop_fits measure (maxTextWidth - margin) (margin + 30)
                words word0 H0 Hws) as Hfit.
  pose proof (wrap_loop_offset measure (maxTextWidth - margin) (margin + 30)
                words word0) as Hoff.
  rewrite Forall_forall in *. intros l Hl.
  rewrite (Hoff l Hl). specialize (Hfit l Hl).
  unfold maxTextWidth, width, margin in *. lra.
Qed.

Lemma bullet_text_within_right_margin_witness :
  Forall (fun l => x l + count_chars (text l) <= width - margin - 30)
         (wrapText count_chars "to be or not" (maxTextWidth - margin)
                   (margin + 30)).
Proof.
  apply (bullet_text_within_right_margin count_chars "to be or not").
  repeat constructor; vm_compute; discriminate.
Defined.

Lemma draw_lines_calls (ctx : Context2D) (y x0 : Q) (ls : list Line) :
  Forall (fun l => x l = x0) ls ->
  exists added,
    drawn (fst (draw_lines ctx y ls)) = (added ++ drawn ctx)%list /\
    Forall (fun c => exists t y',
              c = FillText (fillStyle ctx) (font ctx) (textAlign ctx) t x0 y')
           added.
Proof.
  revert ctx y. induction ls as [|l ls IH]; intros ctx y H.
  - exists []. split; [reflexivity | constructor].
  - inversion H as [|? ? Hx Hrest]; subst. cbn [draw_lines].
    destruct (IH (fillText (text l) (x l) y ctx) (y + lineHeight) Hrest)
      as (added & Hd & Ha).
    exists (added ++ [FillText (fillStyle ctx) (font ctx) (textAlign ctx)
                        (text l) (x l) y])%list.
    split.
    + rewrite Hd. cbn [drawn fillText]. now rewrite <- app_assoc.
    + apply Forall_app. split; [exact Ha|].
      constructor; [now exists (text l), y | constructor].
Qed.

Lemma draw_bullets_calls (env : Env) (points : list string)
    (ctx : Context2D) (y : Q) :
  exists added,
    drawn (fst (draw_bullets env ctx y points)) = (added ++ drawn ctx)%list /\
    Forall (fun c => exists t x y',
              c = FillText (fillStyle ctx) (font ctx) (textAlign ctx) t x y'
              /\ (x = margin \/ x = margin + 30))
           added.
Proof.
  revert ctx y. induction points as [|p rest IH]; intros ctx y.
  - exists []. split; [reflexivity | constructor].
  - rewrite draw_bullets_cons. cbv zeta.
    set (ctx1 := fillText bulletSymbol margin y ctx).
    set (ls := wrapText (measureText env ctx1) p (maxTextWidth - margin)
                        (margin + 30)).
    assert (Hoff : Forall (fun l => x l = margin + 30) ls).
    { unfold ls, wrapText. destruct (split " "%char p).
      apply wrap_loop_offset. }
    destruct (draw_lines_calls ctx1 y (margin + 30) ls Hoff)
      as (a1 & Hd1 & Ha1).
    destruct (draw_lines_state ctx1 y ls) as (S1 & S2 & S3).
    destruct (IH (fst (draw_lines ctx1 y ls))
                 (snd (draw_lines ctx1 y ls) + lineHeight * 0.5))
      as (a2 & Hd2 & Ha2).
    rewrite S1, S2, S3 in Ha2. cbn [fillStyle font textAlign fillText ctx1]
      in Ha1, Ha2.
    exists (a2 ++ a1 ++ [FillText (fillStyle ctx) (font ctx) (textAlign ctx)
                           bulletSymbol margin y])%list.
    split.
    + rewrite Hd2, Hd1. unfold ctx1. cbn [drawn fillText].
      now rewrite <- !app_assoc.
    + apply Forall_app. split; [exact Ha2|]. apply Forall_app. split.
      * eapply Forall_impl; [|exact Ha1]. intros c (t & y' & ->).
        exists t, (margin + 30), y'. split; [reflexivity | now right].
      * constructor; [|constructor].
        exists bulletSymbol, margin, y. split; [reflexivity | now left].
Qed.

(** What a generated image holds, in drawing order: the white
    background over the whole page, the headline and the subheadline
    centred at their fixed heights, and then only calls of the bullet
    loop, black and left-aligned at the margin or at the indent. *)
Theorem page_layout (env : Env)
    (summaryId headline subheadline m : string) (img : Png) :
  fst (generatePngAction env summaryId headline subheadline) = Success m img ->
  exists bullets,
    png_calls img
    = (FillRect "#FFFFFF" 0 0 width height
       :: FillText "#000000" (px_Inter headlineFontSize) "center" headline
            (width / 2) headlineY
       :: FillText "#000000" (px_Inter subheadlineFontSize) "center"
            subheadline (width / 2) subheadlineY
       :: bullets)%list
    /\ Forall is_bullet_call bullets.
Proof.
  intro H. apply generatePng_success_inv in H
    as (user & row & _ & _ & _ & _ & _ & _ & _ & _ & H).
  unfold render in H.
  destruct (draw_bullets_calls env (bulletPoints (summaryText row))
              (draw_header (createCanvas width height) headline subheadline)
              bulletStartY) as (added & Hd & Ha).
  destruct (draw_bullets env _ bulletStartY _) as [ctx endY].
  cbn [fst] in *. injection H as _ <-.
  exists (rev added). split.
  - unfold toDataURL. cbn [png_calls]. rewrite Hd, rev_app_distr.
    reflexivity.
  - apply Forall_rev. exact Ha.
Qed.

Lemma page_layout_witness :
  let summary :=
    mkSummary "s1" "user_1" "https://example.com/a" "text"
              (many_bullets 2) in
  let env := fake_env "user_1" summary in
  let img :=
    toDataURL
      (fst (draw_bullets env
              (draw_header (createCanvas width height) "Headline"
                 "Subheadline")
              bulletStartY (bulletPoints (summaryText summary)))) in
  exists bullets,
    png_calls img
    = (FillRect "#FFFFFF" 0 0 width height
       :: FillText "#000000" (px_Inter headlineFontSize) "center" "Headline"
            (width / 2) headlineY
       :: FillText "#000000" (px_Inter subheadlineFontSize) "center"
            "Subheadline" (width / 2) subheadlineY
       :: bullets)%list
    /\ Forall is_bullet_call bullets.
Proof.
  intros summary env img.
  apply (page_layout env "s1" "Headline" "Subheadline"
           "PNG generated successfully." img).
  reflexivity.
Defined.

Lemma ascending_weaken (lo lo' : Q) (calls : list DrawCall) :
  lo' <= lo -> ascending lo calls -> ascending lo' calls.
Proof.
  destruct calls as [|c rest]; [easy|]. cbn [ascending].
  intros H [A B]. split; [lra | exact B].
Qed.

Lemma ascending_app (lo hi : Q) (a b : list DrawCall) :
  ascending lo a -> Forall (fun c => call_y c <= hi) a ->
  ascending hi b -> lo <= hi ->
  ascending lo (a ++ b).
Proof.
  revert lo. induction a as [|c a IH]; intros lo Ha Hf Hb Hle.
  - cbn [app]. now apply (ascending_weaken hi).
  - cbn [app ascending] in *. destruct Ha as [A B].
    inversion Hf as [|? ? Hc Hrest]; subst.
    split; [exact A|]. now apply IH.
Qed.



(** The calls of the inner loop: one text per line, at the position of
    the line, never moving up. *)
Lemma draw_lines_trace (ctx : Context2D) (y : Q) (ls : list Line) :
  exists added,
    drawn (fst (draw_lines ctx y ls)) = (rev added ++ drawn ctx)%list /\
    ascending y added /\
    Forall (fun c => call_y c <= snd (draw_lines ctx y ls)) added /\
    (forall rest,
        Forall (fun l => Qeq_bool (x l) margin = false) ls ->
        group_calls (added ++ rest)
        = ((map text ls ++ fst (group_calls rest))%list,
           snd (group_calls rest))).
Proof.
  revert ctx y. induction ls as [|l ls IH]; intros ctx y.
  - exists []. cbn. repeat split; try constructor.
    intros rest _. now destruct (group_calls rest).
  - cbn [draw_lines].
    destruct (IH (fillText (text l) (x l) y ctx) (y + lineHeight))
      as (added & Hd & Ha & Hf & Hg).
    pose proof (draw_lines_cursor (fillText (text l) (x l) y ctx)
                  (y + lineHeight) ls) as Hc.
    pose proof lineHeight_pos as Hp.
    exists (FillText (fillStyle ctx) (font ctx) (textAlign ctx) (text l)
              (x l) y :: added).
    split; [|split; [|split]].
    + rewrite Hd. cbn [drawn fillText rev]. now rewrite <- app_assoc.
    + cbn [ascending call_y]. split; [lra|].
      apply (ascending_weaken (y + lineHeight)); [lra | exact Ha].
    + constructor; [cbn [call_y]; lra | exact Hf].
    + intros rest Hx. inversion Hx as [|? ? Hl Hls]; subst.
      cbn [app group_calls]. rewrite (Hg rest Hls), Hl. reflexivity.
Qed.

(** The calls of the bullet loop: they never move up, none lies below
    the final cursor, and read back they give the bullets. *)
Lemma draw_bullets_trace (env : Env) (points : list string)
    (ctx : Context2D) (y : Q) :
  exists added,
    drawn (fst (draw_bullets env ctx y points))
    = (rev added ++ drawn ctx)%list /\
    ascending y added /\
    Forall (fun c => call_y c <= snd (draw_bullets env ctx y points)) added /\
    y <= snd (draw_bullets env ctx y points) /\
    group_calls added = ([], map (fun p => map text
                                   (wrapText (metrics env (font ctx)) p
                                      (maxTextWidth - margin) (margin + 30)))
                                 points).
Proof.
  revert ctx y. induction points as [|p rest IH]; intros ctx y.
  - exists []. cbn. repeat split; try constructor. lra.
  - rewrite draw_bullets_cons. cbv zeta.
    set (ctx1 := fillText bulletSymbol margin y ctx).
    set (ls := wrapText (measureText env ctx1) p (maxTextWidth - margin)
                        (margin + 30)).
    destruct (draw_lines_trace ctx1 y ls) as (a1 & Hd1 & Ha1 & Hf1 & Hg1).
    destruct (draw_lines_state ctx1 y ls) as (_ & S2 & _).
    pose proof (draw_lines_cursor ctx1 y ls) as Hc1.
    destruct (IH (fst (draw_lines ctx1 y ls))
                 (snd (draw_lines ctx1 y ls) + lineHeight * 0.5))
      as (a2 & Hd2 & Ha2 & Hf2 & Hc2 & Hg2).
    rewrite S2 in Hg2. change (font ctx1) with (font ctx) in Hg2.
    pose proof lineHeight_pos as Hp.
    set (y1 := snd (draw_lines ctx1 y ls)) in *.
    set (y2 := snd (draw_bullets env (fst (draw_lines ctx1 y ls))
                      (y1 + lineHeight * 0.5) rest)) in *.
    exists (FillText (fillStyle ctx) (font ctx) (textAlign ctx) bulletSymbol
              margin y :: a1 ++ a2)%list.
    split; [|split; [|split; [|split]]].
    + rewrite Hd2, Hd1. unfold ctx1. cbn [drawn fillText rev].
      rewrite rev_app_distr, <- !app_assoc. reflexivity.
    + cbn [ascending call_y]. split; [lra|].
      apply (ascending_app y y1); [exact Ha1 | exact Hf1 | | exact Hc1].
      apply (ascending_weaken (y1 + lineHeight * 0.5)); [lra | exact Ha2].
    + constructor; [cbn [call_y]; lra|]. apply Forall_app. split.
      * eapply Forall_impl; [|exact Hf1]. cbn beta. intros c Hc. lra.
      * exact Hf2.
    + lra.
    + assert (Hoff : Forall (fun l => Qeq_bool (x l) margin = false) ls).
      { assert (Hx : Forall (fun l => x l = margin + 30) ls).
        { unfold ls, wrapText. destruct (split " "%char p).
          apply wrap_loop_offset. }
        eapply Forall_impl; [|exact Hx]. cbn beta. now intros l ->. }
      cbn [group_calls]. rewrite (Hg1 a2 Hoff), Hg2.
      cbn [fst snd map]. rewrite app_nil_r.
      change (Qeq_bool margin margin) with true. cbn iota. reflexivity.
Qed.

Lemma join_wrapped (measure : string -> Q) (p : string) (maxWidth x0 : Q) :
  join " " (map text (wrapText measure p maxWidth x0)) = p.
Proof.
  unfold wrapText. pose proof (fold_glue_split " "%char p "") as H.
  destruct (split " "%char p) as [word0 words]. cbn [fst snd append] in H.
  now rewrite UtilsMore.wrap_loop_join.
Qed.

(** What [render] leaves on the page. *)
Lemma render_inv (env : Env) (summary : SelectSummary)
    (headline subheadline : string) :
  let endY :=
    snd (draw_bullets env
           (draw_header (createCanvas width height) headline subheadline)
           bulletStartY (bulletPoints (summaryText summary))) in
  exists bullets,
    render env (createCanvas width height) summary headline subheadline
    = (Success "PNG generated successfully."
         (mkPng width height (header_calls headline subheadline ++ bullets)),
       if Qle_bool endY (height - margin) then []
       else [Warn "Text overflow detected; truncating content."])
    /\ ascending bulletStartY bullets
    /\ Forall (fun c => call_y c <= endY) bullets
    /\ rendered_bullets bullets = bulletPoints (summaryText summary).
Proof.
  cbv zeta. unfold render.
  set (ctx0 := draw_header (createCanvas width height) headline subheadline).
  set (points := bulletPoints (summaryText summary)).
  destruct (draw_bullets_trace env points ctx0 bulletStartY)
    as (added & Hd & Ha & Hf & _ & Hg).
  destruct (draw_bullets_surface env points ctx0 bulletStartY) as [Hw Hh].
  destruct (draw_bullets env ctx0 bulletStartY points) as [ctx endY].
  cbn [fst snd] in *. exists added.
  split; [|split; [exact Ha | split; [exact Hf|]]].
  - unfold toDataURL. rewrite Hw, Hh, Hd, rev_app_distr, rev_involutive.
    reflexivity.
  - unfold rendered_bullets. rewrite Hg. cbn [snd]. rewrite map_map.
    rewrite <- (map_id points) at 2. apply map_ext. intro p.
    apply join_wrapped.
Qed.





(** C9: the bullets rendered on the page are exactly the
    newline-separated lines of the summary text whose trimmed form
    starts with "- ", each without that marker and in the order of the
    text.  After the background, the headline and the subheadline the
    page holds, for every such line and for no other, the marker at the
    margin followed by the lines the bullet wraps to, and these lines
    joined by single spaces are the bullet.  White space in front of the
    marker does not matter, and every other line, such as one starting
    with "-" and no space or a line of plain text, leaves nothing on the
    page. *)
Theorem rendered_bullets_are_the_marked_lines (env : Env)
    (summaryId headline subheadline m : string) (img : Png) :
  fst (generatePngAction env summaryId headline subheadline) = Success m img ->
  exists summary bullets,
    findFirst env summaryId = Row summary
    /\ png_calls img = (header_calls headline subheadline ++ bullets)%list
    /\ rendered_bullets bullets = bulletPoints (summaryText summary)
    /\ marked_lines (split_list "010"%char (summaryText summary))
                    (rendered_bullets bullets)
    /\ (forall bs,
          marked_lines (split_list "010"%char (summaryText summary)) bs ->
          bs = rendered_bullets bullets)
    /\ (forall indent l, blank indent = true ->
          sep_free "010"%char l -> sep_free "010"%char (indent ++ l) ->
          bulletPoints (indent ++ l) = bulletPoints l)
    /\ (forall l, sep_free "010"%char l ->
          startsWith "- " (trim l) = false -> bulletPoints l = []).
Proof.
  intro H. apply generatePng_success_inv in H
    as (user & row & _ & _ & _ & _ & _ & Hrow & _ & _ & H).
  destruct (render_inv env row headline subheadline)
    as (bullets & Hr & _ & _ & Hb).
  rewrite Hr in H. cbn [fst] in H. injection H as _ <-.
  pose proof (marked_lines_filter_map
                (split_list "010"%char (summaryText row))) as Hm.
  fold (bulletPoints (summaryText row)) in Hm.
  exists row, bullets. rewrite Hb. cbn [png_calls].
  repeat match goal with |- _ /\ _ => split end;
    try reflexivity; try assumption.
  - intros bs Hbs. exact (marked_lines_functional _ _ _ Hbs Hm).
  - intros indent l Hbl Hl Hil. rewrite !bulletPoints_one_line by assumption.
    unfold trim. now rewrite trimStart_blank.
  - intros l Hl E. now rewrite bulletPoints_one_line, E.
Qed.

Lemma rendered_bullets_are_the_marked_lines_witness :
  let text :=
    "Summary:" ++ String "010"%char
      ("   - first point  " ++ String "010"%char
      ("-nospace" ++ String "010"%char "- last")) in
  let summary :=
    mkSummary "s1" "user_1" "https://example.com/a" "text" text in
  let env := fake_env "user_1" summary in
  let img :=
    toDataURL
      (fst (draw_bullets env
              (draw_header (createCanvas width height) "Headline"
                 "Subheadline")
              bulletStartY (bulletPoints text))) in
  exists summary' bullets,
    findFirst env "s1" = Row summary'
    /\ png_calls img = (header_calls "Headline" "Subheadline" ++ bullets)%list
    /\ rendered_bullets bullets = bulletPoints (summaryText summary')
    /\ marked_lines (split_list "010"%char (summaryText summary'))
                    (rendered_bullets bullets)
    /\ (forall bs,
          marked_lines (split_list "010"%char (summaryText summary')) bs ->
          bs = rendered_bullets bullets)
    /\ (forall indent l, blank indent = true ->
          sep_free "010"%char l -> sep_free "010"%char (indent ++ l) ->
          bulletPoints (indent ++ l) = bulletPoints l)
    /\ (forall l, sep_free "010"%char l ->
          startsWith "- " (trim l) = false -> bulletPoints l = []).
Proof.
  intros text summary env img.
  apply (rendered_bullets_are_the_marked_lines env "s1" "Headline"
           "Subheadline" "PNG generated successfully." img).
  reflexivity.
Defined.

Example rendered_bullets_mixed :
  let text :=
    "Summary:" ++ String "010"%char
      ("   - first point  " ++ String "010"%char
      ("-nospace" ++ String "010"%char "- last")) in
  let summary := mkSummary "s1" "user_1" "" "" text in
  match fst (generatePngAction (fake_env "user_1" summary) "s1" "H" "S") with
  | Success _ img => rendered_bullets (png_calls img) = ["first point"; "last"]
  | Failure _ => False
  end.
Proof. vm_compute. reflexivity. Qed.

End GeneratePngMore.

(** ** The summarisation service and the actions on summaries *)

Module SummariesSpec.
Import JsString JsStringFacts Types Ai Summaries FetchArticleMore.

Lemma generateSummary_inv (key : option string)
    (reply : ApiRequest -> ApiReply) (articleText : string) :
  match generateSummary key reply articleText with
  | (Returned s, reqs) =>
      trim s = s /\ s <> "" /\
      exists k, key = Some k /\ k <> "" /\ reqs = [request_for k articleText]
  | (Thrown _, reqs) =>
      ((key = None \/ key = Some "") /\ reqs = []) \/
      exists k, key = Some k /\ k <> "" /\ reqs = [request_for k articleText]
  end.
Proof.
  unfold generateSummary. destruct key as [k|]; [|left; split; auto].
  destruct (GeneratePng.falsy k) eqn:Fk.
  { left. split; [right|reflexivity]. now destruct k. }
  assert (Hk : k <> "") by (intros ->; discriminate).
  fold (request_for k articleText).
  destruct (reply _) as [[summary|]|status message em|em];
    try (right; exists k; now repeat split).
  destruct (Nat.eqb_spec (String.length (trim summary)) 0) as [E|E].
  - right. exists k. now repeat split.
  - split; [apply trim_idempotent|]. split.
    + intro A. rewrite A in E. now apply E.
    + exists k. now repeat split.
Qed.

(** When [generateSummary] returns, the summary is trimmed and not
    empty, the key was set, and exactly one request was sent: to the
    service URL, with the text, the fixed prompt, the length limit 200,
    the bearer key and the timeout of 15 seconds. *)
Theorem generateSummary_returns_trimmed (key : option string)
    (reply : ApiRequest -> ApiReply) (articleText s : string)
    (reqs : list ApiRequest) :
  generateSummary key reply articleText = (Returned s, reqs) ->
  trim s = s /\ s <> "" /\
  exists k, key = Some k /\ k <> "" /\ reqs = [request_for k articleText].
Proof.
  intro H. pose proof (generateSummary_inv key reply articleText) as I.
  now rewrite H in I.
Qed.

Lemma generateSummary_returns_trimmed_witness :
  trim "- a point" = "- a point" /\ "- a point" <> "" /\
  exists k, Some "key" = Some k /\ k <> "" /\
            [request_for "key" "Some text"] = [request_for k "Some text"].
Proof.
  exact (generateSummary_returns_trimmed (Some "key")
           (fun _ => Answers (Some "  - a point  ")) "Some text"
           "- a point" [request_for "key" "Some text"] eq_refl).
Defined.

(** The four ways the two attempts can go. *)
Lemma with_retry_cases (env : Env) (text warning error : string) :
  (exists k s, XAI_API_KEY env = Some k /\ k <> "" /\ trim s = s /\ s <> "" /\
     with_retry env text warning error
     = (Some s, [Requested (request_for k text)]))
  \/ (exists k s, XAI_API_KEY env = Some k /\ k <> "" /\ trim s = s /\
        s <> "" /\
        with_retry env text warning error
        = (Some s, [Requested (request_for k text); Logged (Warn warning);
                    Requested (request_for k text)]))
  \/ (exists k, XAI_API_KEY env = Some k /\ k <> "" /\
        with_retry env text warning error
        = (None, [Requested (request_for k text); Logged (Warn warning);
                  Requested (request_for k text); Logged (Error error)]))
  \/ ((XAI_API_KEY env = None \/ XAI_API_KEY env = Some "") /\
      with_retry env text warning error
      = (None, [Logged (Warn warning); Logged (Error error)])).
Proof.
  unfold with_retry.
  pose proof (generateSummary_inv (XAI_API_KEY env) (api env 0%nat) text)
    as I1.
  pose proof (generateSummary_inv (XAI_API_KEY env) (api env 1%nat) text)
    as I2.
  destruct (generateSummary (XAI_API_KEY env) (api env 0%nat) text)
    as [[s1|m1] reqs1].
  - destruct I1 as (T & N & k & Hk & Hk' & ->).
    left. exists k, s1. now repeat split.
  - destruct (generateSummary (XAI_API_KEY env) (api env 1%nat) text)
      as [[s2|m2] reqs2].
    + destruct I2 as (T & N & k & Hk & Hk' & ->).
      destruct I1 as [[[A|A] _]|(k1 & Hk1 & _ & ->)];
        try (rewrite A in Hk; try discriminate; injection Hk as <-;
             now elim Hk').
      rewrite Hk in Hk1. injection Hk1 as <-.
      right; left. exists k, s2. now repeat split.
    + destruct I1 as [[A ->]|(k1 & Hk1 & Hk1' & ->)];
        destruct I2 as [[B ->]|(k2 & Hk2 & Hk2' & ->)].
      * right; right; right. now split.
      * exfalso. destruct A as [A|A]; rewrite A in Hk2; try discriminate.
        injection Hk2 as <-. now elim Hk2'.
      * exfalso. destruct B as [B|B]; rewrite B in Hk1; try discriminate.
        injection Hk1 as <-. now elim Hk1'.
      * rewrite Hk1 in Hk2. injection Hk2 as <-.
        right; right; left. exists k1. now repeat split.
Qed.

Lemma falsy_not (s : string) : GeneratePng.falsy s = false -> s <> "".
Proof. intros H ->. discriminate. Qed.

Ltac conjs := repeat match goal with |- _ /\ _ => split end.

Ltac retry_cases env text w e :=
  destruct (with_retry_cases env text w e)
    as [(k & s & Hkey & Hk & Ht & Hs & E)
       |[(k & s & Hkey & Hk & Ht & Hs & E)
        |[(k & Hkey & Hk & E)|(Hkey & E)]]];
  rewrite E.

(** The effects of [generateSummaryAction], in order: first the
    attempts at the service (at most two requests, no write), then the
    storing (at most one insert, no request); it never updates a row; it
    stores only after a request; and it does nothing at all unless the
    user is signed in and the article text is not blank. *)
Theorem generateSummaryAction_effects (env : Env)
    (article : FetchArticle.ArticleData) :
  exists attempts stored,
    snd (generateSummaryAction env article) = (attempts ++ stored)%list
    /\ filter is_insert attempts = [] /\ filter is_request stored = []
    /\ filter is_update (attempts ++ stored) = []
    /\ (List.length (filter is_request attempts) <= 2)%nat
    /\ (List.length (filter is_insert stored) <= 1)%nat
    /\ (stored <> [] -> exists q, In (Requested q) attempts)
    /\ (attempts <> [] ->
        exists u, auth env = Some u /\ u <> "" /\
                  trim (FetchArticle.text article) <> "").
Proof.
  unfold generateSummaryAction.
  destruct (auth env) as [u|];
    [|exists [], []; cbn; conjs; try lia; try reflexivity; intro A; now elim A].
  destruct (GeneratePng.falsy u) eqn:Fu;
    [exists [], []; cbn; conjs; try lia; try reflexivity; intro A; now elim A|].
  destruct (GeneratePng.falsy (FetchArticle.text article)) eqn:Ft;
    [exists [], []; cbn; conjs; try lia; try reflexivity; intro A; now elim A|].
  destruct (Nat.eqb_spec (String.length (trim (FetchArticle.text article))) 0)
    as [El|El];
    [exists [], []; cbn; conjs; try lia; try reflexivity; intro A; now elim A|].
  cbn [orb].
  assert (Hg : exists v, Some u = Some v /\ v <> "" /\
                         trim (FetchArticle.text article) <> "").
  { exists u. split; [reflexivity|]. split; [now apply falsy_not|].
    intro A. rewrite A in El. now apply El. }
  retry_cases env (FetchArticle.text article)
              "First summary generation attempt failed:"
              "Second summary generation attempt failed:".
  1,2: unfold createSummaryAction;
       destruct (insert env _) as [[|row rows]|]; cbn [hd_error snd];
       (eexists _, _; split; [reflexivity|]);
       cbn; conjs; try lia; try discriminate; try reflexivity;
       try (intros _; exact Hg); intros _; eexists; now left.
  1,2: cbn [snd];
       (eexists _, []; split; [now rewrite app_nil_r|]);
       cbn; conjs; try lia; try discriminate; try reflexivity;
       try (intros _; exact Hg); intro A; now elim A.
Qed.

(** Whatever [generateSummaryAction] inserts is owned by the signed-in
    user, carries the URL and the text of the article unchanged, a
    summary that is trimmed and not empty, and the two dates read in
    that order. *)
Theorem stored_summary (env : Env) (article : FetchArticle.ArticleData)
    (d : InsertSummary) :
  In (Inserted d) (snd (generateSummaryAction env article)) ->
  exists u s,
    auth env = Some u /\ u <> "" /\ trim s = s /\ s <> "" /\
    d = mkInsert u (FetchArticle.url article) (FetchArticle.text article) s
                 (clock env 0%nat) (clock env 1%nat).
Proof.
  unfold generateSummaryAction.
  destruct (auth env) as [u|]; [|now intros []].
  destruct (GeneratePng.falsy u) eqn:Fu; [now intros []|].
  destruct (_ || _); [now intros []|].
  apply falsy_not in Fu.
  retry_cases env (FetchArticle.text article)
              "First summary generation attempt failed:"
              "Second summary generation attempt failed:".
  1,2: unfold createSummaryAction;
       destruct (insert env _) as [[|row rows]|]; cbn;
       intro H;
       repeat (destruct H as [H|H]; try discriminate H;
               try (injection H as <-; exists u, s; now conjs));
       contradiction.
  1,2: cbn; intro H;
       repeat (destruct H as [H|H]; try discriminate H); contradiction.
Qed.

Lemma stored_summary_witness :
  let row := GeneratePng.mkSummary "s1" "user_1" "" "" "" in
  let env := quiet_env "user_1" (Answers (Some "- a point")) [row] in
  exists u s,
    auth env = Some u /\ u <> "" /\ trim s = s /\ s <> "" /\
    mkInsert "user_1" "https://example.com/a" "Some text" "- a point" 0 1
    = mkInsert u "https://example.com/a" "Some text" s (clock env 0%nat)
               (clock env 1%nat).
Proof.
  intros row env.
  apply (stored_summary env
           (FetchArticle.mkArticle "https://example.com/a" "Some text")
           (mkInsert "user_1" "https://example.com/a" "Some text"
                     "- a point" 0 1)).
  right. left. reflexivity.
Defined.

Lemma generateSummaryAction_success_inv (env : Env)
    (article : FetchArticle.ArticleData) (m : string)
    (row : GeneratePng.SelectSummary) :
  fst (generateSummaryAction env article) = Success m row ->
  exists u s rows,
    auth env = Some u /\ u <> "" /\ trim s = s /\ s <> "" /\
    insert env (mkInsert u (FetchArticle.url article)
                  (FetchArticle.text article) s (clock env 0%nat)
                  (clock env 1%nat))
    = Returning (row :: rows).
Proof.
  unfold generateSummaryAction.
  destruct (auth env) as [u|]; [|discriminate].
  destruct (GeneratePng.falsy u) eqn:Fu; [discriminate|].
  destruct (_ || _); [discriminate|].
  apply falsy_not in Fu.
  retry_cases env (FetchArticle.text article)
              "First summary generation attempt failed:"
              "Second summary generation attempt failed:";
    try discriminate.
  1,2: unfold createSummaryAction;
       destruct (insert env _) as [[|row' rows]|] eqn:Ei; cbn;
       try discriminate;
       intro H; injection H as _ <-;
       exists u, s, rows; now conjs.
Qed.

(** When [refineSummaryAction] fails because the summary belongs to
    someone else, the update has already been made: the refined text
    was written to that row, and the row came back, before the owner
    was compared with the signed-in user. *)
Theorem refine_updates_before_owner_check (env : Env)
    (summaryId originalText currentSummary opt : string) :
  fst (refineSummaryAction env summaryId originalText currentSummary opt)
  = Failure "Unauthorized: You can only refine your own summaries." ->
  exists refined row rows,
    In (Updated summaryId
          (mkPartial None None None None (Some refined) None
                     (Some (clock env 0%nat))))
       (snd (refineSummaryAction env summaryId originalText currentSummary
               opt))
    /\ trim refined = refined /\ refined <> ""
    /\ update env summaryId
         (mkPartial None None None None (Some refined) None
                    (Some (clock env 0%nat)))
       = Returning (row :: rows)
    /\ auth env <> Some (GeneratePng.userId row).
Proof.
  unfold refineSummaryAction.
  destruct (auth env) as [u|]; [|discriminate].
  destruct (GeneratePng.falsy u) eqn:Fu; [discriminate|].
  destruct (_ || _); [discriminate|].
  destruct (negb _); [discriminate|].
  retry_cases env (refine_prompt opt originalText currentSummary)
              "First refinement attempt failed:"
              "Second refinement attempt failed:";
    try discriminate.
  1,2: unfold updateSummaryAction, only_summaryText;
       cbn [set_id set_userId set_url set_originalText set_summaryText
              set_createdAt];
       destruct (update env _ _) as [[|row rows]|] eqn:Eu; cbn iota beta;
       cbn [fst snd];
       try discriminate;
       match goal with
       | |- context [negb (String.eqb ?a ?b)] =>
           destruct (String.eqb a b) eqn:Eo
       end;
       cbn [negb fst snd]; try discriminate;
       intros _; exists s, row, rows; conjs; auto;
       [ apply in_or_app; right; now left
       | intro A; injection A as A; rewrite <- A in Eo;
         now rewrite String.eqb_refl in Eo ].
Qed.

Lemma refine_updates_before_owner_check_witness :
  let theirs := GeneratePng.mkSummary "s1" "user_2" "" "" "- a point" in
  let env := quiet_env "user_1" (Answers (Some "- a point")) [theirs] in
  exists refined row rows,
    In (Updated "s1"
          (mkPartial None None None None (Some refined) None
                     (Some (clock env 0%nat))))
       (snd (refineSummaryAction env "s1" "Some text" "- a longer point"
               "shorter"))
    /\ trim refined = refined /\ refined <> ""
    /\ update env "s1"
         (mkPartial None None None None (Some refined) None
                    (Some (clock env 0%nat)))
       = Returning (row :: rows)
    /\ auth env <> Some (GeneratePng.userId row).
Proof.
  intros theirs env.
  apply (refine_updates_before_owner_check env "s1" "Some text"
           "- a longer point" "shorter").
  reflexivity.
Defined.

Lemma refine_prompt_holds_summary (opt originalText currentSummary : string) :
  exists pre post,
    refine_prompt opt originalText currentSummary
    = pre ++ currentSummary ++ post.
Proof.
  unfold refine_prompt.
  destruct (String.eqb opt "shorter"); [|destruct (String.eqb opt "longer")].
  - exists (line_feed ++ indent10
            ++ "Take the following summary and make it shorter by approximately 30%, keeping it concise and neutral. Ensure at least 1 bullet point remains."
            ++ bullet_format ++ line_feed
            ++ indent10 ++ "Current summary:" ++ line_feed ++ indent10),
           (line_feed ++ indent8).
    now rewrite !append_assoc.
  - exists (line_feed ++ indent10
            ++ "Take the following article text and current summary, and expand the summary by approximately 30% in a neutral tone. Limit to a maximum of 10 bullet points."
            ++ bullet_format ++ line_feed
            ++ indent10 ++ "Article text:" ++ line_feed
            ++ indent10 ++ originalText ++ line_feed
            ++ indent10 ++ "Current summary:" ++ line_feed ++ indent10),
           (line_feed ++ indent8).
    now rewrite !append_assoc.
  - exists (line_feed ++ indent10
            ++ "Rewrite the following summary in a neutral tone, keeping the same length and key points."
            ++ bullet_format ++ line_feed
            ++ indent10 ++ "Current summary:" ++ line_feed ++ indent10),
           (line_feed ++ indent8).
    now rewrite !append_assoc.
Qed.

Lemma refine_prompt_longer (originalText currentSummary : string) :
  exists pre post,
    refine_prompt "longer" originalText currentSummary
    = pre ++ originalText ++ post.
Proof.
  unfold refine_prompt. cbn [String.eqb Ascii.eqb Bool.eqb].
  exists (line_feed ++ indent10
          ++ "Take the following article text and current summary, and expand the summary by approximately 30% in a neutral tone. Limit to a maximum of 10 bullet points."
          ++ bullet_format ++ line_feed
          ++ indent10 ++ "Article text:" ++ line_feed ++ indent10),
         (line_feed ++ indent10 ++ "Current summary:" ++ line_feed
          ++ indent10 ++ currentSummary ++ line_feed ++ indent8).
  now rewrite !append_assoc.
Qed.

(** Every request of [refineSummaryAction] goes to the service URL
    with the default summarisation prompt and the limit 200; the
    refinement instructions travel in the text field, which holds the
    current summary and, for "longer", the original text. *)
Theorem refine_request_shape (env : Env)
    (summaryId originalText currentSummary opt : string) (r : ApiRequest) :
  In (Requested r)
     (snd (refineSummaryAction env summaryId originalText currentSummary
             opt)) ->
  req_url r = XAI_API_URL /\ req_prompt r = SUMMARY_PROMPT /\
  req_max_length r = 200%N /\
  req_text r = refine_prompt opt originalText currentSummary /\
  (exists pre post, req_text r = pre ++ currentSummary ++ post) /\
  (opt = "longer" ->
   exists pre post, req_text r = pre ++ originalText ++ post) /\
  (exists k, XAI_API_KEY env = Some k /\ k <> "" /\
             req_authorization r = "Bearer " ++ k).
Proof.
  intro H.
  assert (R : exists k, XAI_API_KEY env = Some k /\ k <> "" /\
              r = request_for k
                    (refine_prompt opt originalText currentSummary)).
  { revert H. unfold refineSummaryAction.
    destruct (auth env) as [u|]; [|now intros []].
    destruct (GeneratePng.falsy u); [now intros []|].
    destruct (_ || _); [now intros []|].
    destruct (negb _); [now intros []|].
    retry_cases env (refine_prompt opt originalText currentSummary)
                "First refinement attempt failed:"
                "Second refinement attempt failed:".
    1,2: unfold updateSummaryAction;
         destruct (update env _ _) as [[|row rows]|]; cbn iota beta;
         try match goal with
           | |- context [negb (String.eqb ?a ?b)] =>
               destruct (String.eqb a b)
           end;
         cbn; intro H;
         repeat (destruct H as [H|H]; try discriminate H;
                 try (injection H as <-; exists k; now conjs));
         contradiction.
    1,2: cbn; intro H;
         repeat (destruct H as [H|H]; try discriminate H;
                 try (injection H as <-; exists k; now conjs));
         contradiction. }
  destruct R as (k & Hkey & Hk & ->). cbn.
  conjs; try reflexivity.
  - apply refine_prompt_holds_summary.
  - intros ->. apply refine_prompt_longer.
  - now exists k.
Qed.

Lemma refine_request_shape_witness :
  let mine := GeneratePng.mkSummary "s1" "user_1" "" "" "- a point" in
  let env := quiet_env "user_1" (Answers (Some "- a point")) [mine] in
  let r := request_for "key" (refine_prompt "longer" "Some text" "- a") in
  req_url r = XAI_API_URL /\ req_prompt r = SUMMARY_PROMPT /\
  req_max_length r = 200%N /\
  req_text r = refine_prompt "longer" "Some text" "- a" /\
  (exists pre post, req_text r = pre ++ "- a" ++ post) /\
  ("longer" = "longer" ->
   exists pre post, req_text r = pre ++ "Some text" ++ post) /\
  (exists k, XAI_API_KEY env = Some k /\ k <> "" /\
             req_authorization r = "Bearer " ++ k).
Proof.
  intros mine env r.
  apply (refine_request_shape env "s1" "Some text" "- a" "longer" r).
  left. reflexivity.
Defined.

(** The effects of [refineSummaryAction], in order: first the attempts
    at the service (at most two requests, no write), then at most one
    update, of the summary named, setting the refined text and the date
    and nothing else; it never inserts a row; it updates only after a
    request; and it does nothing at all unless the user is signed in,
    the three parameters are non-empty and the option is one of the
    three. *)
Theorem refineSummaryAction_effects (env : Env)
    (summaryId originalText currentSummary opt : string) :
  exists attempts stored,
    snd (refineSummaryAction env summaryId originalText currentSummary opt)
    = (attempts ++ stored)%list
    /\ filter is_update attempts = [] /\ filter is_request stored = []
    /\ filter is_insert (attempts ++ stored) = []
    /\ (List.length (filter is_request attempts) <= 2)%nat
    /\ (List.length (filter is_update stored) <= 1)%nat
    /\ (stored <> [] -> exists q, In (Requested q) attempts)
    /\ (forall id data, In (Updated id data) stored ->
          id = summaryId /\ set_userId data = None /\ set_url data = None
          /\ set_originalText data = None /\ set_createdAt data = None
          /\ set_id data = None
          /\ set_updatedAt data = Some (clock env 0%nat)
          /\ exists s, set_summaryText data = Some s /\ trim s = s
                       /\ s <> "")
    /\ (attempts <> [] ->
        (exists u, auth env = Some u /\ u <> "") /\
        summaryId <> "" /\ currentSummary <> "" /\ originalText <> "" /\
        In opt ["shorter"; "longer"; "rewrite"]).
Proof.
  unfold refineSummaryAction.
  destruct (auth env) as [u|];
    [|exists [], []; cbn; conjs; try lia; try reflexivity;
      try (intros ? ? []); intro A; now elim A].
  destruct (GeneratePng.falsy u) eqn:Fu;
    [exists [], []; cbn; conjs; try lia; try reflexivity;
     try (intros ? ? []); intro A; now elim A|].
  destruct (GeneratePng.falsy summaryId) eqn:F1;
    [exists [], []; cbn; conjs; try lia; try reflexivity;
     try (intros ? ? []); intro A; now elim A|].
  destruct (GeneratePng.falsy currentSummary) eqn:F2;
    [exists [], []; cbn; conjs; try lia; try reflexivity;
     try (intros ? ? []); intro A; now elim A|].
  destruct (GeneratePng.falsy originalText) eqn:F3;
    [exists [], []; cbn; conjs; try lia; try reflexivity;
     try (intros ? ? []); intro A; now elim A|].
  cbn [orb].
  destruct (existsb (String.eqb opt) ["shorter"; "longer"; "rewrite"])
    eqn:Fo; cbn [negb];
    [|exists [], []; cbn; conjs; try lia; try reflexivity;
      try (intros ? ? []); intro A; now elim A].
  apply falsy_not in Fu, F1, F2, F3.
  assert (Ho : In opt ["shorter"; "longer"; "rewrite"]).
  { apply existsb_exists in Fo. destruct Fo as (x & Hx & Ex).
    apply String.eqb_eq in Ex. now subst x. }
  assert (Hg : (exists u0, Some u = Some u0 /\ u0 <> "") /\
               summaryId <> "" /\ currentSummary <> "" /\
               originalText <> "" /\
               In opt ["shorter"; "longer"; "rewrite"]).
  { conjs; auto. now exists u. }
  clear Fo.
  retry_cases env (refine_prompt opt originalText currentSummary)
              "First refinement attempt failed:"
              "Second refinement attempt failed:".
  1,2: unfold updateSummaryAction, only_summaryText;
       cbn [set_id set_userId set_url set_originalText set_summaryText
              set_createdAt];
       destruct (update env _ _) as [[|row rows]|]; cbn iota beta;
       try match goal with
         | |- context [negb (String.eqb ?a ?b)] =>
             destruct (String.eqb a b)
         end;
       cbn [negb snd];
       (eexists _, _; split; [reflexivity|]);
       conjs; try (cbn; lia); try reflexivity;
       try (intros _; exact Hg);
       try (intros _; eexists; now left);
       intros id data Hin; cbn in Hin;
       repeat (destruct Hin as [Hin|Hin]; try discriminate Hin);
       try contradiction;
       injection Hin as <- <-; cbn; conjs; try reflexivity;
       exists s; now conjs.
  1,2: cbn [snd];
       (eexists _, []; split; [now rewrite app_nil_r|]);
       conjs; try (cbn; lia); try reflexivity;
       try (intros _; exact Hg); try (intros ? ? []);
       intro A; now elim A.
Qed.

(** Without an API key both actions fail, and all they do is log:
    nothing is sent to the service and nothing is written to the
    database. *)
Theorem missing_key_sends_nothing (env : Env)
    (article : FetchArticle.ArticleData)
    (summaryId originalText currentSummary opt : string) :
  XAI_API_KEY env = None \/ XAI_API_KEY env = Some "" ->
  (isSuccess (fst (generateSummaryAction env article)) = false /\
   forall e, In e (snd (generateSummaryAction env article)) ->
             exists l, e = Logged l)
  /\
  (isSuccess (fst (refineSummaryAction env summaryId originalText
                     currentSummary opt)) = false /\
   forall e, In e (snd (refineSummaryAction env summaryId originalText
                          currentSummary opt)) ->
             exists l, e = Logged l).
Proof.
  intro Hno.
  assert (W : forall text w e,
             with_retry env text w e
             = (None, [Logged (Warn w); Logged (Error e)])).
  { intros text w e.
    destruct (with_retry_cases env text w e)
      as [(k & s & Hkey & Hk & _)
         |[(k & s & Hkey & Hk & _)
          |[(k & Hkey & Hk & _)|(_ & E)]]];
      try exact E;
      exfalso; destruct Hno as [A|A]; rewrite A in Hkey;
      try discriminate; injection Hkey as <-; now elim Hk. }
  split.
  - unfold generateSummaryAction.
    destruct (auth env) as [u|]; [|split; [reflexivity|now intros ? []]].
    destruct (GeneratePng.falsy u); [split; [reflexivity|now intros ? []]|].
    destruct (_ || _); [split; [reflexivity|now intros ? []]|].
    rewrite W. split; [reflexivity|].
    intros e [<-|[<-|[]]]; eexists; reflexivity.
  - unfold refineSummaryAction.
    destruct (auth env) as [u|]; [|split; [reflexivity|now intros ? []]].
    destruct (GeneratePng.falsy u); [split; [reflexivity|now intros ? []]|].
    destruct (_ || _); [split; [reflexivity|now intros ? []]|].
    destruct (negb _); [split; [reflexivity|now intros ? []]|].
    rewrite W. split; [reflexivity|].
    intros e [<-|[<-|[]]]; eexists; reflexivity.
Qed.

Lemma missing_key_sends_nothing_witness :
  let env :=
    mkEnv (Some "user_1") None (fun _ _ => Answers (Some "- a point"))
          (fun k => N.of_nat k) (fun _ => Returning [])
          (fun _ _ => Returning []) in
  let article :=
    FetchArticle.mkArticle "https://example.com/a" "Some text" in
  (isSuccess (fst (generateSummaryAction env article)) = false /\
   forall e, In e (snd (generateSummaryAction env article)) ->
             exists l, e = Logged l)
  /\
  (isSuccess (fst (refineSummaryAction env "s1" "Some text" "- a"
                     "rewrite")) = false /\
   forall e, In e (snd (refineSummaryAction env "s1" "Some text" "- a"
                          "rewrite")) ->
             exists l, e = Logged l).
Proof.
  intros env article.
  apply (missing_key_sends_nothing env article "s1" "Some text" "- a"
           "rewrite").
  left. reflexivity.
Defined.

(** A refinement that succeeds returns the first row the update gave
    back, that row belongs to the signed-in user, and the message names
    the option. *)
Theorem refine_success_is_owned (env : Env)
    (summaryId originalText currentSummary opt m : string)
    (row : GeneratePng.SelectSummary) :
  fst (refineSummaryAction env summaryId originalText currentSummary opt)
  = Success m row ->
  auth env = Some (GeneratePng.userId row) /\
  m = "Summary " ++ opt ++ " refinement completed successfully." /\
  exists s rows,
    trim s = s /\ s <> "" /\
    update env summaryId
      (mkPartial None None None None (Some s) None
                 (Some (clock env 0%nat)))
    = Returning (row :: rows).
Proof.
  unfold refineSummaryAction.
  destruct (auth env) as [u|]; [|discriminate].
  destruct (GeneratePng.falsy u) eqn:Fu; [discriminate|].
  destruct (_ || _); [discriminate|].
  destruct (negb _); [discriminate|].
  retry_cases env (refine_prompt opt originalText currentSummary)
              "First refinement attempt failed:"
              "Second refinement attempt failed:";
    try discriminate.
  1,2: unfold updateSummaryAction, only_summaryText;
       cbn [set_id set_userId set_url set_originalText set_summaryText
              set_createdAt];
       destruct (update env _ _) as [[|row' rows]|] eqn:Eu; cbn iota beta;
       cbn [fst snd];
       try discriminate;
       match goal with
       | |- context [negb (String.eqb ?a ?b)] =>
           destruct (String.eqb a b) eqn:Eo
       end;
       cbn [negb fst snd]; try discriminate;
       intro H; injection H as <- <-;
       apply String.eqb_eq in Eo; rewrite Eo;
       conjs; try reflexivity; exists s, rows; now conjs.
Qed.

Lemma refine_success_is_owned_witness :
  let mine := GeneratePng.mkSummary "s1" "user_1" "" "" "- a point" in
  let env := quiet_env "user_1" (Answers (Some "- a point")) [mine] in
  auth env = Some (GeneratePng.userId mine) /\
  "Summary shorter refinement completed successfully."
  = "Summary " ++ "shorter" ++ " refinement completed successfully." /\
  exists s rows,
    trim s = s /\ s <> "" /\
    update env "s1"
      (mkPartial None None None None (Some s) None
                 (Some (clock env 0%nat)))
    = Returning (mine :: rows).
Proof.
  intros mine env.
  apply (refine_success_is_owned env "s1" "Some text" "- a longer point"
           "shorter" "Summary shorter refinement completed successfully."
           mine).
  reflexivity.
Defined.

End SummariesSpec.

Module HomePageSpec.
Import JsString Types Ai Summaries HomePage SummariesSpec.

Lemma fetch_success_inv (w : FetchArticle.World) (u m : string)
    (data : FetchArticle.ArticleData) (effects : list FetchArticle.Effect) :
  FetchArticle.fetchArticleAction w u = (Success m data, effects) ->
  effects = [FetchArticle.HttpGet u] /\
  exists document,
    FetchArticle.network w u = FetchArticle.Responds 200 document /\
    data = FetchArticle.mkArticle u
             (trim (collapse_newlines (FetchArticle.articleText document))).
Proof.
  intro E.
  pose proof (FetchArticleSpec.success_carries_collected_text w u m data)
    as Hf.
  rewrite E in Hf. destruct (Hf eq_refl) as (document & Hn & _ & Hd).
  split; [|now exists document].
  revert E. unfold FetchArticle.fetchArticleAction, FetchArticle.axios_get.
  destruct (Url.URL_parses _ u); cbn [negb]; [|discriminate].
  rewrite Hn. change (FetchArticle.validateStatus 200) with true.
  change (200 =? 200)%N with true. cbn [negb].
  destruct (_ <? 50)%nat; [discriminate|].
  intro E. now injection E as _ _ <-.
Qed.

Lemma onSubmitSuccess_redirect_inv (w : FetchArticle.World) (env : Env)
    (articleData : FetchArticle.ArticleData) (target : string) :
  redirect (onSubmitSuccess w env articleData) = Some target ->
  exists document u s row rows,
    FetchArticle.network w (FetchArticle.url articleData)
    = FetchArticle.Responds 200 document /\
    fetched (onSubmitSuccess w env articleData)
    = [FetchArticle.HttpGet (FetchArticle.url articleData)] /\
    auth env = Some u /\ u <> "" /\ trim s = s /\ s <> "" /\
    insert env
      (mkInsert u (FetchArticle.url articleData)
         (trim (collapse_newlines (FetchArticle.articleText document)))
         s (clock env 0%nat) (clock env 1%nat))
    = Returning (row :: rows) /\
    target = "/summary/" ++ GeneratePng.id row /\
    logged (onSubmitSuccess w env articleData) = [].
Proof.
  unfold onSubmitSuccess.
  destruct (FetchArticle.fetchArticleAction w (FetchArticle.url articleData))
    as [fetchResult effects] eqn:Ef.
  destruct fetchResult as [m data|m]; [|discriminate].
  destruct (generateSummaryAction env data) as [summaryResult summarised]
    eqn:Eg.
  destruct summaryResult as [m' row|m']; [|discriminate].
  cbn [redirect logged fetched]. intro H. injection H as <-.
  destruct (fetch_success_inv w _ m data effects Ef)
    as (-> & document & Hn & ->).
  pose proof (generateSummaryAction_success_inv env
                (FetchArticle.mkArticle (FetchArticle.url articleData)
                   (trim (collapse_newlines
                            (FetchArticle.articleText document))))
                m' row) as Hs.
  rewrite Eg in Hs.
  destruct (Hs eq_refl) as (u & s & rows & Ha & Hu & Ht & Hne & Hi).
  exists document, u, s, row, rows. now conjs.
Qed.

(** When the handler of the home page redirects, the page was answered
    with status 200, the summary stored is the signed-in user's, for the
    URL submitted and with the text extracted from that page, and the
    redirect goes to the page of the row the insert returned; nothing
    was logged as an error. *)
Theorem redirect_names_the_stored_summary (w : FetchArticle.World)
    (env : Env) (articleData : FetchArticle.ArticleData) (target : string) :
  redirect (onSubmitSuccess w env articleData) = Some target ->
  exists document u s row rows,
    FetchArticle.network w (FetchArticle.url articleData)
    = FetchArticle.Responds 200 document /\
    auth env = Some u /\ u <> "" /\ trim s = s /\ s <> "" /\
    insert env
      (mkInsert u (FetchArticle.url articleData)
         (trim (collapse_newlines (FetchArticle.articleText document)))
         s (clock env 0%nat) (clock env 1%nat))
    = Returning (row :: rows) /\
    target = "/summary/" ++ GeneratePng.id row /\
    logged (onSubmitSuccess w env articleData) = [].
Proof.
  intro H.
  destruct (onSubmitSuccess_redirect_inv w env articleData target H)
    as (document & u & s & row & rows & A & _ & B).
  now exists document, u, s, row, rows.
Qed.

Lemma redirect_names_the_stored_summary_witness :
  let w := FetchArticle.world_of
             (FetchArticle.Responds 200 (FetchArticle.example_page 5)) in
  let stored := GeneratePng.mkSummary "s1" "user_1" "" "" "- a point" in
  let env := quiet_env "user_1" (Answers (Some "- a point")) [stored] in
  let articleData := FetchArticle.mkArticle "https://example.com/a" "" in
  exists document u s row rows,
    FetchArticle.network w (FetchArticle.url articleData)
    = FetchArticle.Responds 200 document /\
    auth env = Some u /\ u <> "" /\ trim s = s /\ s <> "" /\
    insert env
      (mkInsert u (FetchArticle.url articleData)
         (trim (collapse_newlines (FetchArticle.articleText document)))
         s (clock env 0%nat) (clock env 1%nat))
    = Returning (row :: rows) /\
    "/summary/s1" = "/summary/" ++ GeneratePng.id row /\
    logged (onSubmitSuccess w env articleData) = [].
Proof.
  intros w stored env articleData.
  apply (redirect_names_the_stored_summary w env articleData "/summary/s1").
  vm_compute. reflexivity.
Defined.

End HomePageSpec.

(** ** The URL form and the submission as a whole *)

Module UrlInputSpec.
Import JsString Types Url FetchArticle Summaries HomePage UrlInput SummariesSpec.

Lemma fetch_failure_message (w : World) (url m : string) :
  fst (fetchArticleAction w url) = Failure m -> m <> "".
Proof.
  unfold fetchArticleAction, axios_get.
  destruct (URL_parses (hierarchical w) url); cbn [negb fst];
    [|intro H; injection H as <-; discriminate].
  destruct (network w url) as [status document| |]; cbn [fst].
  - destruct (validateStatus status).
    + destruct (negb (status =? 200)%N); cbn [fst];
        [intro H; injection H as <-; discriminate|].
      destruct (String.length (articleText document) <? 50)%nat; cbn [fst];
        [intro H; injection H as <-; discriminate|discriminate].
    + unfold on_error. cbn [response].
      destruct (_ || _); [|destruct (status =? 404)%N]; cbn [fst];
        intro H; injection H as <-; discriminate.
  - intro H; injection H as <-; discriminate.
  - intro H; injection H as <-; discriminate.
Qed.

(** What one submission of the form shows.  When the call of the action
    does not come back, or when the callback throws, the [catch] logs
    and shows the unexpected-error toast, in the second case after the
    success toast.  A failure of the extraction is shown with the
    message of the action, never with the fallback text, and the
    callback is not run.  The callback is run exactly when the
    extraction succeeded, on the data it returned. *)
Theorem onSubmit_reports_the_action {H : Type} (w : World)
    (callback : ArticleData -> Called H) (url : string) :
  match fst (fetchArticleAction w url) with
  | Success _ data =>
      match callback data with
      | Returns h =>
          onSubmit (served w) (Some callback) url
          = ([mkToast "Success" "Article fetched successfully." "default"],
             snd (fetchArticleAction w url), [], Some h)
      | Throws =>
          onSubmit (served w) (Some callback) url
          = ([mkToast "Success" "Article fetched successfully." "default";
              mkToast "Error" "An unexpected error occurred." "destructive"],
             snd (fetchArticleAction w url),
             [Error "Error submitting URL:"], None)
      end
  | Failure m =>
      onSubmit (served w) (Some callback) url
      = ([mkToast "Error" m "destructive"],
         snd (fetchArticleAction w url), [], None)
  end
  /\ (forall effects,
        onSubmit (fun _ => (Unanswered, effects)) (Some callback) url
        = ([mkToast "Error" "An unexpected error occurred." "destructive"],
           effects, [Error "Error submitting URL:"], None)).
Proof.
  split; [|reflexivity].
  pose proof (fetch_failure_message w url) as Hm.
  unfold onSubmit, served.
  destruct (fetchArticleAction w url) as [[m data|m] effects];
    cbn [fst snd] in *.
  - destruct (callback data); reflexivity.
  - specialize (Hm m eq_refl).
    destruct m as [|c m]; [now elim Hm|]. reflexivity.
Qed.

(** A submission that ends in the redirect has fetched the page twice:
    the form requests the URL, and the handler of the home page requests
    it again.  The text that is stored comes from the second answer; the
    text of the first is only tested for its length. *)
Theorem submission_fetches_the_page_twice (w1 w2 : World) (env : Env)
    (url target : string) (toasts : list Toast) (effects : list Effect)
    (log : list Log) (outcome : Outcome) :
  onSubmit (served w1)
           (Some (fun data => Returns (onSubmitSuccess w2 env data))) url
  = (toasts, effects, log, Some outcome) ->
  redirect outcome = Some target ->
  effects = [HttpGet url] /\ fetched outcome = [HttpGet url] /\
  exists first second u s row rows,
    network w1 url = Responds 200 first /\
    (50 <= String.length (articleText first))%nat /\
    network w2 url = Responds 200 second /\
    auth env = Some u /\
    insert env
      (mkInsert u url (trim (collapse_newlines (articleText second))) s
                (clock env 0%nat) (clock env 1%nat))
    = Returning (row :: rows) /\
    target = "/summary/" ++ GeneratePng.id row.
Proof.
  unfold onSubmit, served.
  destruct (fetchArticleAction w1 url) as [result effects1] eqn:E1.
  destruct result as [m data|m]; [|discriminate].
  intro H. injection H as _ <- _ <-.
  pose proof (FetchArticleSpec.success_carries_collected_text w1 url m data)
    as Hlen.
  rewrite E1 in Hlen. destruct (Hlen eq_refl) as (first' & Hn' & Hl & _).
  destruct (HomePageSpec.fetch_success_inv w1 url m data effects1 E1)
    as (-> & first & Hn1 & ->).
  rewrite Hn1 in Hn'. injection Hn' as <-.
  intro Hr.
  destruct (HomePageSpec.onSubmitSuccess_redirect_inv w2 env _ target Hr)
    as (second & u & s & row & rows & Hn2 & Hf & Ha & _ & _ & _ & Hi & Ht
        & _).
  cbn [FetchArticle.url] in *.
  split; [reflexivity|]. split; [exact Hf|].
  exists first, second, u, s, row, rows. now conjs.
Qed.

Lemma submission_fetches_the_page_twice_witness :
  let w := world_of (Responds 200 (example_page 5)) in
  let stored := GeneratePng.mkSummary "s1" "user_1" "" "" "- a point" in
  let env := quiet_env "user_1" (Ai.Answers (Some "- a point")) [stored] in
  [HttpGet "https://example.com/a"] = [HttpGet "https://example.com/a"] /\
  fetched (onSubmitSuccess w env
             (mkArticle "https://example.com/a"
                (trim (collapse_newlines (articleText (example_page 5))))))
  = [HttpGet "https://example.com/a"] /\
  exists first second u s row rows,
    network w "https://example.com/a" = Responds 200 first /\
    (50 <= String.length (articleText first))%nat /\
    network w "https://example.com/a" = Responds 200 second /\
    auth env = Some u /\
    insert env
      (mkInsert u "https://example.com/a"
                (trim (collapse_newlines (articleText second))) s
                (clock env 0%nat) (clock env 1%nat))
    = Returning (row :: rows) /\
    "/summary/s1" = "/summary/" ++ GeneratePng.id row.
Proof.
  intros w stored env.
  apply (submission_fetches_the_page_twice w w env "https://example.com/a"
           "/summary/s1"
           [mkToast "Success" "Article fetched successfully." "default"]
           [HttpGet "https://example.com/a"] []).
  - vm_compute. reflexivity.
  - vm_compute. reflexivity.
Defined.

End UrlInputSpec.
